(** * AutoSub: the subtitle pipeline of [subtitle_generator.py]

    A shallow embedding of class [SubtitleGenerator]: the time-code codec
    ([format_time], [parse_time_string]), the SRT codec ([create_srt_file],
    [parse_srt_file]), the style translation and the two compositing paths
    ([add_subtitles_to_video_with_srt], [add_subtitles_to_video_moviepy]),
    the burn contract ([add_subtitles_to_video]) and the orchestrator
    ([generate_subtitles]).

    Conventions of the embedding.
    - A Python [str] is a [list ascii]; a character stands for the code
      point of the same number (0..255).
    - A Python [float] is the rational number it denotes, or one of the
      special values; arithmetic on floats is exact, so the binary rounding
      of IEEE doubles is outside the model ([format_time(1.001)] is
      [00:00:01,001] here).
    - A Python exception is a value [Exn cls msg context]; a call that may
      raise returns a [result].
    - The file system, the standard output and the calls to external
      collaborators (Whisper, MoviePy, the ffmpeg subprocess) are threaded
      through a state; the collaborators themselves are fields of an
      environment record.  Files are written as on a POSIX host (no
      translation of line ends), opening a file for writing succeeds, and
      the [close()] calls of MoviePy objects have no effect here.
    - The printed lines are kept without their pictographs. *)

From Stdlib Require Import ZArith QArith Qround Qabs Lia Lqa List Ascii String.
From stdpp Require Import gmap strings list.

Open Scope Z_scope.

(** ** Python values *)

Definition str := list ascii.

Coercion list_ascii_of_string : string >-> list.

Definition NL : ascii := ascii_of_nat 10.
Definition CR : ascii := ascii_of_nat 13.

Inductive exn_class :=
| ValueError | IndexError | OverflowError | AttributeError | KeyError
| OSError | FileNotFoundError | Exception
| CalledProcessError (returncode : Z) (stderr : str).

(** [Exn cls msg context]: the class, [str(e)] and [e.__context__]. *)
#[warnings="-register-all"]
Inductive exn := Exn (cls : exn_class) (msg : str) (context : option exn).

Definition exn_cls (e : exn) : exn_class := let 'Exn c _ _ := e in c.
Definition exn_msg (e : exn) : str := let 'Exn _ m _ := e in m.
Definition exn_context (e : exn) : option exn := let 'Exn _ _ c := e in c.

Inductive result (A : Type) := Ok (a : A) | Raise (e : exn).
Arguments Ok {A} a.
Arguments Raise {A} e.

Definition rbind {A B} (r : result A) (k : A -> result B) : result B :=
  match r with Ok a => k a | Raise e => Raise e end.

Declare Scope result_scope.
Delimit Scope result_scope with result.
Notation "'let?' x := r 'in' k" := (rbind r (fun x => k))
  (at level 10, x pattern, r at level 100, k at level 200) : result_scope.

Definition is_ok {A} (r : result A) : bool :=
  match r with Ok _ => true | Raise _ => false end.

(** A float: a finite value (the rational it denotes), an infinity or NaN. *)
Inductive pyfloat := Fin (q : Q) | Inf (negative : bool) | NaN.

(** ** Built-in string operations *)

Module Str.

Definition code (c : ascii) : Z := Z.of_nat (nat_of_ascii c).

(** [str.isspace] on the code points below 256. *)
Definition isspace (c : ascii) : bool :=
  let n := code c in
  ((9 <=? n) && (n <=? 13)) || ((28 <=? n) && (n <=? 32))
  || (n =? 133) || (n =? 160).

(** [str.isprintable] on the code points below 256. *)
Definition isprintable (c : ascii) : bool :=
  let n := code c in
  ((32 <=? n) && (n <=? 126)) || ((161 <=? n) && negb (n =? 173)).

Definition isdigit (c : ascii) : bool :=
  let n := code c in (48 <=? n) && (n <=? 57).

Definition eqb (a b : ascii) : bool := Ascii.eqb a b.

Fixpoint lstrip_by (p : ascii -> bool) (s : str) : str :=
  match s with
  | [] => []
  | c :: s' => if p c then lstrip_by p s' else s
  end.

Definition rstrip_by (p : ascii -> bool) (s : str) : str :=
  rev (lstrip_by p (rev s)).

(** [s.strip()] *)
Definition strip (s : str) : str := rstrip_by isspace (lstrip_by isspace s).

(** [s.lstrip(chars)] *)
Definition lstrip (chars s : str) : str :=
  lstrip_by (fun c => existsb (eqb c) chars) s.

(** [s.startswith(p)] *)
Fixpoint startswith (p s : str) : bool :=
  match p, s with
  | [], _ => true
  | _ :: _, [] => false
  | a :: p', b :: s' => eqb a b && startswith p' s'
  end.

(** [s.partition(sep)], when [sep] occurs: the text before and after the
    first occurrence. *)
Fixpoint partition (sep s : str) : option (str * str) :=
  if startswith sep s then Some ([], drop (length sep) s)
  else match s with
       | [] => None
       | c :: s' =>
         match partition sep s' with
         | Some (a, b) => Some (c :: a, b)
         | None => None
         end
       end.

(** [sub in s] *)
Definition contains (sub s : str) : bool :=
  match partition sub s with Some _ => true | None => false end.

Fixpoint split_fuel (fuel : nat) (sep s : str) : list str :=
  match fuel with
  | O => [s]
  | S fuel' =>
    match partition sep s with
    | None => [s]
    | Some (a, b) => a :: split_fuel fuel' sep b
    end
  end.

(** [s.split(sep)] for a non-empty [sep]: every occurrence consumes at
    least one character, so [length s] rounds are enough. *)
Definition split (sep s : str) : list str := split_fuel (length s) sep s.

(** [sep.join(l)] *)
Fixpoint join (sep : str) (l : list str) : str :=
  match l with
  | [] => []
  | [a] => a
  | a :: l' => a ++ sep ++ join sep l'
  end.

(** [s.replace(old, new)] for a non-empty [old]. *)
Definition replace (old new s : str) : str := join new (split old s).

(** [s[i:j]] for [0 <= i <= j]. *)
Definition slice (i j : nat) (s : str) : str := take (j - i) (drop i s).

Definition lower (c : ascii) : ascii :=
  let n := code c in
  if (65 <=? n) && (n <=? 90) then ascii_of_nat (Z.to_nat (n + 32)) else c.

Definition str_eqb (a b : str) : bool := bool_decide (a = b).

(** Reading in text mode translates ["\r\n"] and ["\r"] to ["\n"]. *)
Fixpoint universal_newlines (s : str) : str :=
  match s with
  | [] => []
  | c :: s' =>
    if eqb c CR then
      NL :: match s' with
            | d :: s'' => if eqb d NL then universal_newlines s''
                          else universal_newlines s'
            | [] => []
            end
    else c :: universal_newlines s'
  end.

End Str.

(** ** Integers and floats as text *)

Module Num.

Definition digit_char (d : Z) : ascii := ascii_of_nat (Z.to_nat (48 + d)).

Fixpoint digits_of (fuel : nat) (n : Z) (acc : str) : str :=
  match fuel with
  | O => acc
  | S fuel' =>
    let acc' := digit_char (n mod 10) :: acc in
    if n / 10 =? 0 then acc' else digits_of fuel' (n / 10) acc'
  end.

(** The decimal digits of [n >= 0]. *)
Definition decimal (n : Z) : str :=
  digits_of (S (Z.to_nat (Z.log2 n))) n [].

(** [str(z)], hence [f"{z}"], of an int. *)
Definition str_of_int (z : Z) : str :=
  if z <? 0 then "-"%char :: decimal (- z) else decimal z.

(** [f"{z:0Wd}"]: sign first, then zeros up to the width [W]. *)
Definition format_0d (width : nat) (z : Z) : str :=
  let d := decimal (Z.abs z) in
  if z <? 0 then "-"%char :: repeat "0"%char (width - 1 - length d) ++ d
  else repeat "0"%char (width - length d) ++ d.

Definition digit_val (c : ascii) : option Z :=
  if Str.isdigit c then Some (Str.code c - 48) else None.

(** The longest prefix of the form [digit (["_"] digit)*], as digit
    values, and the rest. *)
Fixpoint digitpart (s : str) : list Z * str :=
  match s with
  | [] => ([], [])
  | c :: s' =>
    match digit_val c with
    | None => ([], s)
    | Some d =>
      let '(ds, r) :=
        match s' with
        | u :: s'' =>
          if Str.eqb u "_"%char then
            match digitpart s'' with
            | ([], _) => ([], s')
            | res => res
            end
          else digitpart s'
        | [] => ([], [])
        end in
      (d :: ds, r)
    end
  end.

Definition of_digits (ds : list Z) : Z :=
  fold_left (fun a d => 10 * a + d) ds 0.

Definition quote (s : str) : str := "'"%char :: s ++ ["'"%char].

Definition split_sign (s : str) : bool * str :=
  match s with
  | c :: r =>
    if Str.eqb c "-"%char then (true, r)
    else if Str.eqb c "+"%char then (false, r)
    else (false, s)
  | [] => (false, [])
  end.

(** [int(x)] of a [str] (base 10): surrounding whitespace, one optional
    sign, digits with single underscores between them. *)
Definition py_int (x : str) : result Z :=
  let '(neg, body) := split_sign (Str.strip x) in
  match digitpart body with
  | (d :: ds, []) =>
    let v := of_digits (d :: ds) in Ok (if neg then - v else v)
  | _ =>
    Raise (Exn ValueError
             ("invalid literal for int() with base 10: " ++ quote x) None)
  end.

Definition pow10 (e : Z) : Q := Qpower 10 e.

Definition exponent (s : str) : option (Z * str) :=
  match s with
  | c :: r =>
    if Str.eqb (Str.lower c) "e"%char then
      let '(neg, body) := split_sign r in
      match digitpart body with
      | (d :: ds, rest) =>
        let v := of_digits (d :: ds) in Some (if neg then - v else v, rest)
      | _ => None
      end
    else Some (0, s)
  | [] => Some (0, [])
  end.

(** [number [exponent]] of the grammar of [float()]. *)
Definition floatnumber (s : str) : option Q :=
  let '(ip, r1) := digitpart s in
  let '(fp, r2) :=
    match r1 with
    | c :: r => if Str.eqb c "."%char then digitpart r else ([], r1)
    | [] => ([], [])
    end in
  match ip ++ fp with
  | [] => None
  | ds =>
    match exponent r2 with
    | Some (e, []) =>
      Some (inject_Z (of_digits ds) * pow10 (e - Z.of_nat (length fp)))%Q
    | _ => None
    end
  end.

(** [float(x)] of a [str]. *)
Definition py_float (x : str) : result pyfloat :=
  let '(neg, body) := split_sign (Str.strip x) in
  let low := map Str.lower body in
  if Str.str_eqb low "inf" || Str.str_eqb low "infinity" then Ok (Inf neg)
  else if Str.str_eqb low "nan" then Ok NaN
  else match floatnumber body with
       | Some q => Ok (Fin (if neg then - q else q)%Q)
       | None =>
         Raise (Exn ValueError
                  ("could not convert string to float: " ++ quote x) None)
       end.

(** Python's [divmod] and [%] on floats, for a positive divisor: floor
    quotient and the remainder of its sign. *)
Definition divmod (x y : Q) : Q * Q :=
  let q := Qfloor (x / y) in (inject_Z q, x - inject_Z q * y)%Q.

Definition fmod (x y : Q) : Q := snd (divmod x y).

(** [int(x)] of a float: truncation towards zero. *)
Definition int_of_float (x : Q) : Z :=
  if Qle_bool 0 x then Qfloor x else Qceiling x.

(** Rounding to the nearest integer, ties to even. *)
Definition round_half_even (x : Q) : Z :=
  let f := Qfloor x in
  let d := (x - inject_Z f)%Q in
  match (d ?= 1 # 2)%Q with
  | Lt => f
  | Gt => f + 1
  | Eq => if Z.even f then f else f + 1
  end.

(** [n + x] for an int [n] and a float [x]. *)
Definition int_add_float (n : Z) (x : pyfloat) : pyfloat :=
  match x with
  | Fin q => Fin (inject_Z n + q)
  | other => other
  end.

End Num.

(** ** Time-code codec *)

Definition MAX_DELTA_DAYS : Z := 999999999.
Definition US_PER_SECOND : Z := 1000000.
Definition US_PER_DAY : Z := 86400 * US_PER_SECOND.

(** [timedelta(seconds=seconds)]: the duration in microseconds, rounded
    half to even, within the range of [timedelta]. *)
Definition timedelta (seconds : pyfloat) : result Z :=
  match seconds with
  | NaN => Raise (Exn ValueError "cannot convert float NaN to integer" None)
  | Inf _ =>
    Raise (Exn OverflowError "cannot convert float infinity to integer" None)
  | Fin q =>
    let us := Num.round_half_even (q * inject_Z US_PER_SECOND) in
    let days := us / US_PER_DAY in
    if (- MAX_DELTA_DAYS <=? days) && (days <=? MAX_DELTA_DAYS) then Ok us
    else Raise (Exn OverflowError
                  ("days=" ++ Num.str_of_int days
                   ++ "; must have magnitude <= 999999999") None)
  end.

(** [td.total_seconds()] *)
Definition total_seconds (td : Z) : Q := inject_Z td / inject_Z US_PER_SECOND.

Open Scope result_scope.

Definition format_time (seconds : pyfloat) : result str :=
  let? td := timedelta seconds in
  let '(hours, remainder) := Num.divmod (total_seconds td) 3600 in
  let '(minutes, seconds) := Num.divmod remainder 60 in
  let milliseconds := Num.int_of_float (Num.fmod seconds 1 * 1000) in
  Ok (Num.format_0d 2 (Num.int_of_float hours) ++ ":"
      ++ Num.format_0d 2 (Num.int_of_float minutes) ++ ":"
      ++ Num.format_0d 2 (Num.int_of_float seconds) ++ ","
      ++ Num.format_0d 3 milliseconds).

(** [parts[i]] *)
Definition getitem {A} (l : list A) (i : nat) : result A :=
  match l !! i with
  | Some a => Ok a
  | None => Raise (Exn IndexError "list index out of range" None)
  end.

Definition parse_time_string (time_str : str) : result pyfloat :=
  let time_str := Str.replace "," "." time_str in
  let parts := Str.split ":" time_str in
  let? p0 := getitem parts 0 in
  let? hours := Num.py_int p0 in
  let? p1 := getitem parts 1 in
  let? minutes := Num.py_int p1 in
  let? p2 := getitem parts 2 in
  let? seconds := Num.py_float p2 in
  Ok (Num.int_add_float (hours * 3600 + minutes * 60) seconds).

(** ** The world: files, output, external collaborators *)

Definition FS := gmap str str.

(** A transcription segment or a parsed subtitle: the keys ['start'],
    ['end'] and ['text'] of the dict. *)
Record segment := Segment {
  seg_start : pyfloat;
  seg_end : pyfloat;
  seg_text : str;
}.

(** What MoviePy hands back for an opened container. *)
Record Video := {
  video_file : str;
  video_size : Z * Z;
  video_fps : Q;
  video_audio : bool;
}.

Inductive position := AtY (y : Z) | AtBottom.

Record Clip := {
  clip_text : str;
  clip_fontsize : Z;
  clip_method : option str;
  clip_start : pyfloat;
  clip_end : pyfloat;
  clip_position : position;
}.

Inductive FinalVideo :=
| BaseVideo (v : Video)
| CompositeVideoClip (v : Video) (overlays : list Clip).

Record CompletedProcess := { returncode : Z; proc_stderr : str }.

Inductive call :=
| CallVideoFileClip (path : str)
| CallWriteAudiofile (v : Video) (audio_path : str)
| CallTranscribe (audio_path : str)
| CallSubprocessRun (cmd : list str)
| CallTextClip (text : str) (fontsize : Z) (method : option str)
| CallWriteVideofile (final_video : FinalVideo) (output_path : str).

Inductive event :=
| EvPrint (line : str)
| EvWrite (path content : str)
| EvRead (path content : str)
| EvRemove (path : str)
| EvCall (c : call) (files : FS).

(** The collaborators.  Each answer may depend on the number of external
    calls made so far and on the files; those that produce files return the
    new file system. *)
Record Env := {
  VideoFileClip : nat -> str -> FS -> result Video;
  write_audiofile : nat -> Video -> str -> FS -> result unit * FS;
  model_transcribe : nat -> str -> FS -> result (list segment);
  subprocess_run : nat -> list str -> FS -> result CompletedProcess * FS;
  TextClip : nat -> str -> Z -> option str -> result unit;
  write_videofile : nat -> FinalVideo -> str -> FS -> result unit * FS;
}.

Record state := State {
  fs : FS;
  clock : nat;
  trace : list event;
}.

Definition M (A : Type) := state -> result A * state.

Definition ret {A} (a : A) : M A := fun s => (Ok a, s).
Definition raise {A} (e : exn) : M A := fun s => (Raise e, s).
Definition bind {A B} (m : M A) (k : A -> M B) : M B :=
  fun s => match m s with
           | (Ok a, s') => k a s'
           | (Raise e, s') => (Raise e, s')
           end.
Definition lift {A} (r : result A) : M A := fun s => (r, s).

Declare Scope m_scope.
Delimit Scope m_scope with M.
Notation "x <- m ;; k" := (bind m (fun x => k))
  (at level 100, m at next level, right associativity) : m_scope.
Notation "m ;;; k" := (bind m (fun _ => k))
  (at level 100, right associativity) : m_scope.
Open Scope m_scope.

Definition log (ev : event) : M unit :=
  fun s => (Ok tt, State (fs s) (clock s) (trace s ++ [ev])).

Definition print (line : str) : M unit := log (EvPrint line).

Definition tick : M nat :=
  fun s => (Ok (clock s), State (fs s) (S (clock s)) (trace s)).

Definition get_fs : M FS := fun s => (Ok (fs s), s).
Definition put_fs (f : FS) : M unit :=
  fun s => (Ok tt, State f (clock s) (trace s)).

(** A call to a collaborator that only reads. *)
Definition external {A} (c : call) (f : nat -> FS -> result A) : M A :=
  files <- get_fs ;; log (EvCall c files) ;;; n <- tick ;; lift (f n files).

(** A call to a collaborator that may write files. *)
Definition external_rw {A} (c : call) (f : nat -> FS -> result A * FS) : M A :=
  files <- get_fs ;; log (EvCall c files) ;;; n <- tick ;;
  let '(r, files') := f n files in
  put_fs files' ;;; lift r.

(** The exception [e2] raised while [e] is being handled: [e] ends the
    chain of contexts of [e2]. *)
Fixpoint chain (e2 e : exn) : exn :=
  match e2 with
  | Exn c m None => Exn c m (Some e)
  | Exn c m (Some e') => Exn c m (Some (chain e' e))
  end.

(** [try: body  except ... as e: handler e]; [handler e = None] when no
    clause matches the class of [e]. *)
Definition try_except {A} (body : M A) (handler : exn -> option (M A)) : M A :=
  fun s => match body s with
           | (Ok a, s') => (Ok a, s')
           | (Raise e, s') =>
             match handler e with
             | None => (Raise e, s')
             | Some h =>
               match h s' with
               | (Raise e2, s'') => (Raise (chain e2 e), s'')
               | done => done
               end
             end
           end.

(** [try: body  finally: cleanup] *)
Definition try_finally {A} (body : M A) (cleanup : M unit) : M A :=
  fun s => let '(r, s') := body s in
           match cleanup s' with
           | (Ok _, s'') => (r, s'')
           | (Raise e2, s'') =>
             (Raise match r with Raise e => chain e2 e | Ok _ => e2 end, s'')
           end.

Module os.

Definition path_exists (p : str) : M bool :=
  files <- get_fs ;; ret (bool_decide (is_Some (files !! p))).

Definition remove (p : str) : M unit :=
  files <- get_fs ;;
  match files !! p with
  | Some _ => put_fs (delete p files) ;;; log (EvRemove p)
  | None =>
    raise (Exn FileNotFoundError
             ("[Errno 2] No such file or directory: " ++ Num.quote p) None)
  end.

Definition last_index (c : ascii) (s : str) : option nat :=
  match Str.partition [c] (rev s) with
  | Some (a, b) => Some (length b)
  | None => None
  end.

(** [os.path.basename] *)
Definition path_basename (p : str) : str :=
  match last_index "/"%char p with
  | Some i => drop (S i) p
  | None => p
  end.

(** [os.path.splitext]: the extension starts at the last dot of the last
    component, leading dots of the component apart. *)
Definition path_splitext (p : str) : str * str :=
  let start := match last_index "/"%char p with Some i => S i | None => O end in
  let name := Str.lstrip_by (fun c => Str.eqb c "."%char) (drop start p) in
  match name, last_index "."%char name with
  | _ :: _, Some i =>
    let cut := (length p - length name + i)%nat in (take cut p, drop cut p)
  | _, _ => (p, [])
  end.

(** [open(path, 'w', encoding='utf-8')] followed by the writes of
    [content] and the close. *)
Definition write_text (p content : str) : M unit :=
  files <- get_fs ;; put_fs (<[p := content]> files) ;;; log (EvWrite p content).

(** [open(path, 'r', encoding='utf-8').read()] *)
Definition read_text (p : str) : M str :=
  files <- get_fs ;;
  match files !! p with
  | Some raw => log (EvRead p raw) ;;; ret (Str.universal_newlines raw)
  | None =>
    raise (Exn FileNotFoundError
             ("[Errno 2] No such file or directory: " ++ Num.quote p) None)
  end.

End os.

(** ** Style configuration *)

(** The values a style mapping holds (it arrives as JSON): [None], booleans,
    ints and strings. *)
Inductive pyval := PNone | PBool (b : bool) | PInt (z : Z) | PStr (s : str).

Definition StyleConfig := gmap str pyval.

(** [f"{v}"] *)
Definition py_str (v : pyval) : str :=
  match v with
  | PNone => "None"
  | PBool true => "True"
  | PBool false => "False"
  | PInt z => Num.str_of_int z
  | PStr s => s
  end.

(** Truth value of [v]. *)
Definition truthy (v : pyval) : bool :=
  match v with
  | PNone => false
  | PBool b => b
  | PInt z => negb (z =? 0)
  | PStr s => negb (bool_decide (s = []))
  end.

(** [d.get(key, default)] *)
Definition dict_get (d : StyleConfig) (key : str) (default : pyval) : pyval :=
  match d !! key with Some v => v | None => default end.

Definition type_name (v : pyval) : str :=
  match v with
  | PNone => "NoneType" | PBool _ => "bool" | PInt _ => "int" | PStr _ => "str"
  end.

(** The local function of [add_subtitles_to_video_with_srt]:
    [#RRGGBB] to [&HBBGGRR&]. *)
Definition hex_to_ffmpeg (hex_color : pyval) : result str :=
  if negb (truthy hex_color) then Ok ("&Hffffff&" : str)
  else match hex_color with
       | PStr s =>
         if negb (Str.startswith "#" s) then Ok ("&Hffffff&" : str)
         else
           let hex_color := Str.lstrip "#" s in
           let r := Str.slice 0 2 hex_color in
           let g := Str.slice 2 4 hex_color in
           let b := Str.slice 4 6 hex_color in
           Ok ("&H" ++ b ++ g ++ r ++ "&")
       | other =>
         Raise (Exn AttributeError
                  (Num.quote (type_name other)
                   ++ " object has no attribute 'startswith'") None)
       end.

Definition default_style_str : str :=
  "FontSize=24,PrimaryColour=&Hffffff&,OutlineColour=&H000000&,Outline=2".

(** The style string [add_subtitles_to_video_with_srt] builds. *)
Definition style_str (style_config : option StyleConfig) : result str :=
  match style_config with
  | Some d =>
    if bool_decide (d = ∅) then Ok default_style_str
    else
      let font_size := dict_get d "fontSize" (PInt 24) in
      let? primary_color := hex_to_ffmpeg (dict_get d "fontColor" (PStr "#ffffff")) in
      let? outline_color := hex_to_ffmpeg (dict_get d "outlineColor" (PStr "#000000")) in
      let outline_width := dict_get d "outlineWidth" (PInt 2) in
      let margin_v := dict_get d "marginV" (PInt 10) in
      Ok ("FontSize=" ++ py_str font_size
          ++ ",PrimaryColour=" ++ primary_color
          ++ ",OutlineColour=" ++ outline_color
          ++ ",Outline=" ++ py_str outline_width
          ++ ",MarginV=" ++ py_str margin_v)
  | None => Ok default_style_str
  end.

Definition ffmpeg_cmd (video_path srt_path output_path style : str) : list str :=
  [ "ffmpeg" : str; "-i" : str; video_path; "-vf" : str;
    "subtitles='" ++ srt_path ++ "':force_style='" ++ style ++ "'";
    "-c:a" : str; "copy" : str; "-y" : str; output_path ].

(** ** SRT codec *)

(** One round of the loop of [create_srt_file]: the text of the three
    writes for segment number [i]. *)
Definition srt_block (i : Z) (seg : segment) : result str :=
  let? start_time := format_time (seg_start seg) in
  let? end_time := format_time (seg_end seg) in
  let text := Str.strip (seg_text seg) in
  Ok (Num.str_of_int i ++ [NL]
      ++ start_time ++ " --> " ++ end_time ++ [NL]
      ++ text ++ [NL; NL]).

(** The loop of [create_srt_file] from index [i]: what has been written to
    the file when the loop ends or raises. *)
Fixpoint write_blocks (i : Z) (segs : list segment) (written : str)
  : str * result unit :=
  match segs with
  | [] => (written, Ok tt)
  | seg :: rest =>
    match srt_block i seg with
    | Ok b => write_blocks (i + 1) rest (written ++ b)
    | Raise e => (written, Raise e)
    end
  end.

(** The loop of [parse_srt_file] over the blocks. *)
Fixpoint parse_blocks (blocks : list str) (subtitles : list segment)
  : result (list segment) :=
  match blocks with
  | [] => Ok subtitles
  | block :: rest =>
    let lines := Str.split [NL] (Str.strip block) in
    if (3 <=? length lines)%nat then
      let? time_line := getitem lines 1 in
      if Str.contains " --> " time_line then
        match Str.split " --> " time_line with
        | [start_str; end_str] =>
          let? start_time := parse_time_string start_str in
          let? end_time := parse_time_string end_str in
          let text := Str.join [NL] (drop 2 lines) in
          parse_blocks rest (subtitles ++ [Segment start_time end_time text])
        | _ =>
          Raise (Exn ValueError "too many values to unpack (expected 2)" None)
        end
      else parse_blocks rest subtitles
    else parse_blocks rest subtitles
  end.

(** [parse_srt_file] after the file is read. *)
Definition parse_srt (content : str) : result (list segment) :=
  let blocks := Str.split [NL; NL] (Str.strip content) in
  parse_blocks blocks [].

(** ** The methods of [SubtitleGenerator] *)

Definition temp_srt_path : str := "temp_subtitles.srt".
Definition temp_audio_path : str := "temp_audio.wav".

Section SubtitleGenerator.

Context (env : Env).

Definition extract_audio (video_path audio_path : str) : M str :=
  print "Extracting audio from video..." ;;;
  video <- external (CallVideoFileClip video_path)
             (fun n => VideoFileClip env n video_path) ;;
  (if video_audio video then
     external_rw (CallWriteAudiofile video audio_path)
       (fun n => write_audiofile env n video audio_path)
   else
     raise (Exn AttributeError
              "'NoneType' object has no attribute 'write_audiofile'" None)) ;;;
  print ("Audio extracted to: " ++ audio_path) ;;;
  ret audio_path.

Definition transcribe_audio (audio_path : str) : M (list segment) :=
  print "Transcribing audio with Whisper..." ;;;
  result <- external (CallTranscribe audio_path)
              (fun n => model_transcribe env n audio_path) ;;
  print "Transcription completed!" ;;;
  ret result.

Definition create_srt_file (transcription_result : list segment)
    (srt_path : str) : M str :=
  print "Creating SRT subtitle file..." ;;;
  let '(written, outcome) := write_blocks 1 transcription_result [] in
  os.write_text srt_path written ;;;
  lift outcome ;;;
  print ("SRT file created: " ++ srt_path) ;;;
  ret srt_path.

Definition new_text_clip (text : str) (fontsize : Z) (method : option str)
    (start end_ : pyfloat) (pos : position) : M Clip :=
  external (CallTextClip text fontsize method)
    (fun n _ => TextClip env n text fontsize method) ;;;
  ret {| clip_text := text; clip_fontsize := fontsize;
         clip_method := method; clip_start := start; clip_end := end_;
         clip_position := pos |}.

Definition create_subtitle_clip (text : str) (start end_ : pyfloat)
    (video_size : Z * Z) : M (option Clip) :=
  try_except
    (subtitle_clip <- new_text_clip text (Z.min (snd video_size / 20) 48)
                        (Some ("label" : str)) start end_
                        (AtY (snd video_size - 100)) ;;
     ret (Some subtitle_clip))
    (fun e => Some (
       print ("Warning: Could not create text clip with method 'label': "
              ++ exn_msg e) ;;;
       try_except
         (subtitle_clip <- new_text_clip text 24 None start end_ AtBottom ;;
          ret (Some subtitle_clip))
         (fun e2 => Some (
            print ("Warning: Fallback text clip creation also failed: "
                   ++ exn_msg e2) ;;;
            ret None)))).

Definition parse_srt_file (srt_path : str) : M (list segment) :=
  content <- os.read_text srt_path ;;
  lift (parse_srt content).

(** The loop of [add_subtitles_to_video_moviepy] over the subtitles. *)
Fixpoint subtitle_clips_loop (subtitles : list segment) (video_size : Z * Z)
    (subtitle_clips : list Clip) : M (list Clip) :=
  match subtitles with
  | [] => ret subtitle_clips
  | subtitle :: rest =>
    let start_time := seg_start subtitle in
    let end_time := seg_end subtitle in
    let text := seg_text subtitle in
    if negb (bool_decide (text = [])) then
      subtitle_clip <- create_subtitle_clip text start_time end_time video_size ;;
      match subtitle_clip with
      | Some clip => subtitle_clips_loop rest video_size (subtitle_clips ++ [clip])
      | None => subtitle_clips_loop rest video_size subtitle_clips
      end
    else subtitle_clips_loop rest video_size subtitle_clips
  end.

Definition add_subtitles_to_video_moviepy (video_path srt_path output_path : str)
  : M str :=
  print "Adding subtitles to video using MoviePy..." ;;;
  subtitles <- parse_srt_file srt_path ;;
  video <- external (CallVideoFileClip video_path)
             (fun n => VideoFileClip env n video_path) ;;
  let video_size := video_size video in
  subtitle_clips <- subtitle_clips_loop subtitles video_size [] ;;
  let final_video :=
    match subtitle_clips with
    | _ :: _ => CompositeVideoClip video subtitle_clips
    | [] => BaseVideo video
    end in
  print "Rendering final video with subtitles..." ;;;
  external_rw (CallWriteVideofile final_video output_path)
    (fun n => write_videofile env n final_video output_path) ;;;
  print ("Video with subtitles saved to: " ++ output_path) ;;;
  ret output_path.

(** [subprocess.run(cmd, capture_output=True, text=True, check=True)] *)
Definition run_checked (cmd : list str) : M CompletedProcess :=
  p <- external_rw (CallSubprocessRun cmd) (fun n => subprocess_run env n cmd) ;;
  if returncode p =? 0 then ret p
  else raise (Exn (CalledProcessError (returncode p) (proc_stderr p))
                ("Command returned non-zero exit status "
                 ++ Num.str_of_int (returncode p) ++ ".") None).

Definition add_subtitles_to_video_with_srt (video_path srt_path output_path : str)
    (style_config : option StyleConfig) : M str :=
  print "Adding subtitles to video using FFmpeg..." ;;;
  style <- lift (style_str style_config) ;;
  let cmd := ffmpeg_cmd video_path srt_path output_path style in
  try_except
    (run_checked cmd ;;;
     print ("Video with subtitles saved to: " ++ output_path) ;;;
     ret output_path)
    (fun e =>
       match exn_cls e with
       | CalledProcessError _ stderr => Some (
           print ("FFmpeg error: " ++ stderr) ;;;
           raise (Exn Exception
                    ("Failed to add subtitles with FFmpeg: " ++ stderr) None))
       | FileNotFoundError => Some (
           print "FFmpeg not found. Falling back to MoviePy method..." ;;;
           add_subtitles_to_video_moviepy video_path srt_path output_path)
       | _ => None
       end).

Definition add_subtitles_to_video (video_path : str)
    (transcription_result : list segment) (output_path : str) : M str :=
  create_srt_file transcription_result temp_srt_path ;;;
  try_finally
    (try_except
       (add_subtitles_to_video_with_srt video_path temp_srt_path output_path None)
       (fun e => Some (
          print ("FFmpeg method failed: " ++ exn_msg e) ;;;
          print "Falling back to MoviePy method..." ;;;
          add_subtitles_to_video_moviepy video_path temp_srt_path output_path)))
    (present <- os.path_exists temp_srt_path ;;
     if present then os.remove temp_srt_path else ret tt).

Definition generate_subtitles (video_path : str)
    (output_video_path output_srt_path : option str) (cleanup_temp : bool)
  : M (str * str) :=
  let output_video_path :=
    match output_video_path with
    | Some p => p
    | None =>
      let base_name := fst (os.path_splitext (os.path_basename video_path)) in
      base_name ++ "_with_subtitles.mp4"
    end in
  let output_srt_path :=
    match output_srt_path with
    | Some p => p
    | None =>
      let base_name := fst (os.path_splitext (os.path_basename video_path)) in
      base_name ++ "_subtitles.srt"
    end in
  try_finally
    (extract_audio video_path temp_audio_path ;;;
     transcription_result <- transcribe_audio temp_audio_path ;;
     create_srt_file transcription_result output_srt_path ;;;
     add_subtitles_to_video video_path transcription_result output_video_path ;;;
     print "Subtitle generation completed!" ;;;
     print ("Video with subtitles: " ++ output_video_path) ;;;
     print ("SRT file: " ++ output_srt_path) ;;;
     ret (output_video_path, output_srt_path))
    (present <- (if cleanup_temp then os.path_exists temp_audio_path
                 else ret false) ;;
     if present then
       os.remove temp_audio_path ;;; print "Temporary audio file cleaned up"
     else ret tt).

End SubtitleGenerator.

(** ** Closed forms and conditions used in the statements *)

(** The text [format_time] produces for a duration of [us] microseconds. *)
Definition timecode (us : Z) : str :=
  Num.format_0d 2 (us / 3600000000) ++ ":"
  ++ Num.format_0d 2 (us mod 3600000000 / 60000000) ++ ":"
  ++ Num.format_0d 2 (us mod 60000000 / 1000000) ++ ","
  ++ Num.format_0d 3 (us mod 1000000 / 1000).

(** The value of a duration cut to whole milliseconds, in seconds. *)
Definition ms_floor (us : Z) : Q := inject_Z (us / 1000) / 1000.

(** The time code [format_time] writes for [t], when it writes one. *)
Definition tc (t : pyfloat) : str :=
  match timedelta t with Ok us => timecode us | Raise _ => [] end.

(** What [parse_time_string] reads from the time code of [t]. *)
Definition decoded (t : pyfloat) : pyfloat :=
  match parse_time_string (tc t) with Ok v => v | Raise _ => NaN end.

(** A block of the document, without the blank line that ends it. *)
Definition block (i : Z) (seg : segment) : str :=
  Num.str_of_int i ++ [NL] ++ tc (seg_start seg) ++ " --> " ++ tc (seg_end seg)
  ++ [NL] ++ Str.strip (seg_text seg).

Fixpoint blocks_from (i : Z) (segs : list segment) : list str :=
  match segs with
  | [] => []
  | seg :: rest => block i seg :: blocks_from (i + 1) rest
  end.

(** A segment the codec carries: both times within the range of
    [timedelta], printable text that is not blank. *)
Definition srt_ready (seg : segment) : Prop :=
  is_ok (timedelta (seg_start seg)) = true
  /\ is_ok (timedelta (seg_end seg)) = true
  /\ Forall (fun c => Str.isprintable c = true) (seg_text seg)
  /\ Str.strip (seg_text seg) <> [].

(** Two times less than a millisecond apart. *)
Definition within_ms (a b : pyfloat) : Prop :=
  match a, b with
  | Fin x, Fin y => (Qabs (y - x) < 1 # 1000)%Q
  | _, _ => False
  end.

(** What parsing makes of a segment that was written. *)
Definition reread (seg : segment) : segment :=
  Segment (decoded (seg_start seg)) (decoded (seg_end seg)) (Str.strip (seg_text seg)).

(** What a run of the orchestrator may do once the transcript is known:
    it writes the one document [doc], to the output path and to the
    temporary path; the primary tool is started on the temporary path while
    it holds [doc]; the fallback reads the temporary path; only the two
    temporary files are removed. *)
Definition burn_event (video_path output_path srt_path doc : str) (ev : event) : Prop :=
  match ev with
  | EvPrint _ => True
  | EvWrite p c => (p = srt_path \/ p = temp_srt_path) /\ c = doc
  | EvRead p _ => p = temp_srt_path
  | EvRemove p => p = temp_srt_path \/ p = temp_audio_path
  | EvCall (CallSubprocessRun cmd) files =>
    cmd = ffmpeg_cmd video_path temp_srt_path output_path default_style_str
    /\ files !! temp_srt_path = Some doc
  | EvCall _ _ => True
  end.

(** What it may do before: no document is written or read and no tool is
    started. *)
Definition quiet_event (ev : event) : Prop :=
  match ev with
  | EvPrint _ => True
  | EvRemove p => p = temp_audio_path
  | EvCall (CallSubprocessRun _) _ => False
  | EvCall _ _ => True
  | _ => False
  end.

(** The paths [generate_subtitles] settles on. *)
Definition default_video_path (video_path : str) (output_video_path : option str) : str :=
  match output_video_path with
  | Some p => p
  | None => fst (os.path_splitext (os.path_basename video_path)) ++ "_with_subtitles.mp4"
  end.

Definition default_srt_path (video_path : str) (output_srt_path : option str) : str :=
  match output_srt_path with
  | Some p => p
  | None => fst (os.path_splitext (os.path_basename video_path)) ++ "_subtitles.srt"
  end.

(** Only the orchestrator's own temporary files are removed. *)
Definition removes_only_temp (ev : event) : Prop :=
  match ev with
  | EvRemove p => p = temp_audio_path \/ p = temp_srt_path
  | _ => True
  end.

(** A studio where every collaborator succeeds: the container opens, the
    audio is written, the transcript has one segment, ffmpeg exits with 0. *)
Definition studio : Env := {|
  VideoFileClip := fun _ path _ =>
    Ok {| video_file := path; video_size := (1280, 720); video_fps := 25;
          video_audio := true |};
  write_audiofile := fun _ _ path files => (Ok tt, <[path := "RIFF" : str]> files);
  model_transcribe := fun _ _ _ => Ok [Segment (Fin 0) (Fin (3 # 2)) " Hello"];
  subprocess_run := fun _ cmd files =>
    (Ok {| returncode := 0; proc_stderr := [] |}, <[default [] (last cmd) := "MP4" : str]> files);
  TextClip := fun _ _ _ _ => Ok tt;
  write_videofile := fun _ _ path files => (Ok tt, <[path := "MP4" : str]> files);
|}.

Definition empty_state : state := State ∅ 0 [].

(** A host where the primary tool exits with status 1 and the fallback
    cannot open the video. *)
Definition both_fail : Env := {|
  VideoFileClip := fun _ _ _ => Raise (Exn OSError "MoviePy error: cannot open video" None);
  write_audiofile := fun _ _ _ files => (Ok tt, files);
  model_transcribe := fun _ _ _ => Ok [];
  subprocess_run := fun _ _ files =>
    (Ok {| returncode := 1; proc_stderr := "Invalid data found" |}, files);
  TextClip := fun _ _ _ _ => Ok tt;
  write_videofile := fun _ _ _ files => (Ok tt, files);
|}.

(** The primary path by the answer of the tool: exit status 0 is the
    result; another exit status raises with the tool's diagnostic; a missing
    tool makes the primary path itself run the fallback; any other error of
    the call propagates. *)
Definition primary_outcome (env : Env) (video srt out : str) (s : state) : Prop :=
  let cmd := ffmpeg_cmd video srt out default_style_str in
  let primary := add_subtitles_to_video_with_srt env video srt out None s in
  let started :=
    trace s ++ [EvPrint "Adding subtitles to video using FFmpeg...";
                EvCall (CallSubprocessRun cmd) (fs s)] in
  match subprocess_run env (clock s) cmd (fs s) with
  | (Ok p, files) =>
    if returncode p =? 0 then fst primary = Ok out
    else exists ctx,
        fst primary
        = Raise (Exn Exception
                   ("Failed to add subtitles with FFmpeg: " ++ proc_stderr p) (Some ctx))
  | (Raise e, files) =>
    match exn_cls e with
    | FileNotFoundError =>
      let fallback :=
        add_subtitles_to_video_moviepy env video srt out
          (State files (S (clock s))
             (started ++ [EvPrint "FFmpeg not found. Falling back to MoviePy method..."])) in
      fst primary = match fst fallback with
                    | Ok p => Ok p
                    | Raise e2 => Raise (chain e2 e)
                    end
    | CalledProcessError _ stderr =>
      exists ctx,
        fst primary
        = Raise (Exn Exception ("Failed to add subtitles with FFmpeg: " ++ stderr) (Some ctx))
    | _ => fst primary = Raise e
    end
  end.

(** A subtitle from which no overlay results: its text is empty, or no text
    clip can be built for it. *)
Definition no_overlay (env : Env) (sub : segment) : Prop :=
  seg_text sub = []
  \/ forall n fontsize method, is_ok (TextClip env n (seg_text sub) fontsize method) = false.

(** A host without text rendering: every [TextClip] fails; the rest works. *)
Definition no_text_rendering : Env := {|
  VideoFileClip := fun _ path _ =>
    Ok {| video_file := path; video_size := (1280, 720); video_fps := 25;
          video_audio := true |};
  write_audiofile := fun _ _ path files => (Ok tt, <[path := "RIFF" : str]> files);
  model_transcribe := fun _ _ _ => Ok [];
  subprocess_run := fun _ _ files =>
    (Raise (Exn FileNotFoundError "[Errno 2] No such file or directory: 'ffmpeg'" None), files);
  TextClip := fun _ _ _ _ => Raise (Exn OSError "ImageMagick is not installed" None);
  write_videofile := fun _ _ path files => (Ok tt, <[path := "MP4" : str]> files);
|}.

Definition one_block : str :=
  "1" ++ [NL] ++ "00:00:00,000 --> 00:00:01,500" ++ [NL] ++ "Hello" ++ [NL; NL].

(** What the primary path may do with a style: the only tool it starts is
    ffmpeg, on the style string of [style_str]. *)
Definition fp_with_srt (video_path srt_path output_path : str)
    (style_config : option StyleConfig) (ev : event) : Prop :=
  match ev with
  | EvCall (CallSubprocessRun cmd) _ =>
    exists style, style_str style_config = Ok style
                  /\ cmd = ffmpeg_cmd video_path srt_path output_path style
  | EvWrite _ _ | EvRemove _ => False
  | EvRead p _ => p = srt_path
  | _ => True
  end.

Definition bad_timecode_document : str :=
  "1" ++ [NL] ++ "xx:00:00,000 --> 00:00:01,000" ++ [NL] ++ "Hello" ++ [NL; NL]
  ++ "2" ++ [NL] ++ "00:00:01,000 --> 00:00:02,000" ++ [NL] ++ "World" ++ [NL; NL].

(** ** Shapes of text *)

Module Shape.

Import Str.

Definition is_digit_val (d : Z) : Prop := 0 <= d <= 9.

(** A character that ends a run of digits. *)
Definition stops (rest : str) : Prop :=
  match rest with
  | [] => True
  | c :: _ => isdigit c = false /\ c <> "_"%char
  end.

Definition trimmed (s : str) : Prop :=
  (forall c s', s = c :: s' -> isspace c = false)
  /\ (forall s' c, s = s' ++ [c] -> isspace c = false).

(** A line of a block: no line break inside, not empty. *)
Record line (s : str) : Prop := {
  line_no_nl : NL ∉ s;
  line_no_cr : CR ∉ s;
  line_nonempty : s <> [];
}.

(** A block: its three lines, a first and a last character that are not
    blank. *)
Inductive block_shape : str -> Prop :=
| BlockShape (a b c : str) :
    line a -> line b -> line c -> trimmed (a ++ [NL] ++ b ++ [NL] ++ c) ->
    block_shape (a ++ [NL] ++ b ++ [NL] ++ c).

End Shape.

(** ** Traces of runs *)

Module Trace.

(** The events a run appends to the trace all satisfy [P]. *)
Definition extends (P : event -> Prop) (s s' : state) : Prop :=
  exists evs, trace s' = trace s ++ evs /\ Forall P evs.

Definition emits {A} (P : event -> Prop) (m : M A) : Prop :=
  forall s, extends P s (snd (m s)).

Definition fp_extract (ev : event) : Prop :=
  match ev with
  | EvPrint _ => True
  | EvCall (CallVideoFileClip _) _ | EvCall (CallWriteAudiofile _ _) _ => True
  | _ => False
  end.

Definition fp_transcribe (ev : event) : Prop :=
  match ev with
  | EvPrint _ | EvCall (CallTranscribe _) _ => True
  | _ => False
  end.

Definition fp_create (path : str) (ev : event) : Prop :=
  match ev with
  | EvPrint _ => True
  | EvWrite p _ => p = path
  | _ => False
  end.

Definition fp_moviepy (srt_path : str) (ev : event) : Prop :=
  match ev with
  | EvPrint _ => True
  | EvRead p _ => p = srt_path
  | EvCall (CallVideoFileClip _) _ | EvCall (CallTextClip _ _ _) _
  | EvCall (CallWriteVideofile _ _) _ => True
  | _ => False
  end.

Definition fp_clips (ev : event) : Prop :=
  match ev with
  | EvPrint _ | EvCall (CallTextClip _ _ _) _ => True
  | _ => False
  end.

Definition any_event (ev : event) : Prop := True.

(** The [finally] clause of [add_subtitles_to_video]. *)
Definition remove_temp_srt : M unit :=
  bind (os.path_exists temp_srt_path)
    (fun present => if present then os.remove temp_srt_path else ret tt).

End Trace.

(** * Facts *)

(** * Decimal text *)

Module NumFacts.
Import Num Shape.

Lemma code_ascii_of_nat n : (n < 256)%nat -> Str.code (ascii_of_nat n) = Z.of_nat n.
Proof. intros H. unfold Str.code. rewrite nat_ascii_embedding; [done | lia]. Qed.

Lemma code_digit_char d : is_digit_val d -> Str.code (digit_char d) = 48 + d.
Proof.
  intros H. unfold digit_char. rewrite code_ascii_of_nat; unfold is_digit_val in *; lia.
Qed.

Lemma digit_val_char d : is_digit_val d -> digit_val (digit_char d) = Some d.
Proof.
  intros H. unfold digit_val, Str.isdigit. rewrite code_digit_char by done.
  unfold is_digit_val in H.
  replace (48 <=? 48 + d) with true by lia.
  replace (48 + d <=? 57) with true by lia.
  simpl. f_equal. lia.
Qed.

Lemma of_digits_snoc ds d : of_digits (ds ++ [d]) = 10 * of_digits ds + d.
Proof. unfold of_digits. by rewrite fold_left_app. Qed.

Lemma of_digits_app ds1 ds2 :
  of_digits (ds1 ++ ds2) = of_digits ds1 * 10 ^ Z.of_nat (length ds2) + of_digits ds2.
Proof.
  induction ds2 as [|d ds2 IH] using rev_ind.
  - rewrite app_nil_r. simpl. unfold of_digits at 3. simpl. lia.
  - rewrite app_assoc, !of_digits_snoc, IH, length_app. simpl.
    rewrite Nat2Z.inj_add, Z.pow_add_r by lia. simpl (Z.of_nat 1). lia.
Qed.

Lemma of_digits_zeros k ds : of_digits (repeat 0 k ++ ds) = of_digits ds.
Proof.
  rewrite of_digits_app.
  assert (of_digits (repeat 0 k) = 0) as ->; [|lia].
  induction k as [|k IH]; [done|].
  change (repeat 0 (S k)) with ([0] ++ repeat 0 k).
  rewrite of_digits_app, IH. unfold of_digits. simpl. lia.
Qed.

(** The digits the loop of [decimal] produces. *)
Lemma digits_of_spec fuel : forall n acc,
  0 <= n < 10 ^ Z.of_nat fuel -> (0 < fuel)%nat ->
  exists ds, digits_of fuel n (map digit_char acc) = map digit_char (ds ++ acc)
             /\ Forall is_digit_val ds /\ of_digits ds = n
             /\ (0 < length ds <= fuel)%nat.
Proof.
  induction fuel as [|fuel IH]; intros n acc Hn Hf; [lia|].
  simpl. destruct (Z.eqb_spec (n / 10) 0) as [Hq|Hq].
  - exists [n mod 10]. split; [done|]. split.
    + constructor; [|done]. unfold is_digit_val. pose proof (Z.mod_pos_bound n 10). lia.
    + split; [|simpl; lia]. unfold of_digits. simpl.
      pose proof (Z.div_mod n 10). lia.
  - assert (Hd : is_digit_val (n mod 10)).
    { unfold is_digit_val. pose proof (Z.mod_pos_bound n 10). lia. }
    assert (Hlt : 0 <= n / 10 < 10 ^ Z.of_nat fuel).
    { split; [apply Z.div_pos; lia|].
      apply Z.div_lt_upper_bound; [lia|].
      rewrite Nat2Z.inj_succ, Z.pow_succ_r in Hn by lia. lia. }
    assert (Hfuel : (0 < fuel)%nat).
    { destruct fuel; [|lia]. simpl in Hlt. lia. }
    destruct (IH (n / 10) (n mod 10 :: acc) Hlt Hfuel) as (ds & E & HF & Hv & Hl).
    exists (ds ++ [n mod 10]). split; [|split; [|split]].
    + change (digit_char (n mod 10) :: map digit_char acc)
        with (map digit_char (n mod 10 :: acc)).
      rewrite E. by rewrite <- app_assoc.
    + apply Forall_app. split; [done|]. by constructor.
    + rewrite of_digits_snoc, Hv. pose proof (Z.div_mod n 10). lia.
    + rewrite length_app. simpl. lia.
Qed.

Lemma pow2_le_pow10 k : 0 <= k -> 2 ^ k <= 10 ^ k.
Proof. intros. apply Z.pow_le_mono_l. lia. Qed.

Lemma decimal_spec n : 0 <= n ->
  exists ds, decimal n = map digit_char ds /\ Forall is_digit_val ds
             /\ of_digits ds = n /\ ds <> [].
Proof.
  intros Hn. unfold decimal.
  destruct (digits_of_spec (S (Z.to_nat (Z.log2 n))) n []) as (ds & E & HF & Hv & Hl).
  - split; [done|].
    rewrite Nat2Z.inj_succ, Z2Nat.id by apply Z.log2_nonneg.
    destruct (Z.eq_dec n 0) as [->|Hz]; [simpl; lia|].
    pose proof (Z.log2_spec n ltac:(lia)) as [_ H2].
    pose proof (pow2_le_pow10 (Z.succ (Z.log2 n)) ltac:(pose proof (Z.log2_nonneg n); lia)).
    lia.
  - lia.
  - exists ds. rewrite app_nil_r in E. split; [exact E|].
    split; [done|]. split; [done|]. destruct ds; [simpl in Hl; lia|done].
Qed.

(** A number below [10^k] has at most [k] digits. *)
Lemma digits_of_length fuel : forall n k acc,
  0 <= n < 10 ^ Z.of_nat k -> (0 < k)%nat ->
  (length (digits_of fuel n acc) <= k + length acc)%nat.
Proof.
  induction fuel as [|fuel IH]; intros n k acc Hn Hk; simpl; [lia|].
  destruct (Z.eqb_spec (n / 10) 0) as [Hq|Hq]; [simpl; lia|].
  destruct k as [|k]; [lia|].
  assert (Hlt : 0 <= n / 10 < 10 ^ Z.of_nat k).
  { split; [apply Z.div_pos; lia|].
    apply Z.div_lt_upper_bound; [lia|].
    rewrite Nat2Z.inj_succ, Z.pow_succ_r in Hn by lia. lia. }
  assert (0 < k)%nat.
  { destruct k; [|lia]. simpl in Hlt. lia. }
  specialize (IH (n / 10) k (digit_char (n mod 10) :: acc) Hlt ltac:(done)).
  simpl in IH. lia.
Qed.

Lemma decimal_length n k :
  0 <= n < 10 ^ Z.of_nat k -> (0 < k)%nat -> (length (decimal n) <= k)%nat.
Proof.
  intros. unfold decimal.
  pose proof (digits_of_length (S (Z.to_nat (Z.log2 n))) n k [] ltac:(done) ltac:(done)).
  simpl in *. lia.
Qed.

(** Zero padding of a non-negative number: digits only, same value. *)
Lemma format_0d_nonneg w n : 0 <= n ->
  exists ds, format_0d w n = map digit_char ds /\ Forall is_digit_val ds
             /\ of_digits ds = n /\ ds <> [] /\ (w <= length ds)%nat.
Proof.
  intros Hn. unfold format_0d.
  replace (n <? 0) with false by lia.
  rewrite Z.abs_eq by done.
  destruct (decimal_spec n Hn) as (ds & -> & HF & Hv & Hne).
  exists (repeat 0 (w - length (map digit_char ds)) ++ ds).
  split; [|split; [|split; [|split]]].
  - rewrite map_app. f_equal. generalize (w - length (map digit_char ds))%nat.
    intros k. induction k; simpl; [done|by f_equal].
  - apply Forall_app. split; [|done].
    apply Forall_forall. intros x Hx%list_elem_of_In%repeat_spec. subst. unfold is_digit_val. lia.
  - by rewrite of_digits_zeros.
  - destruct ds; [done|]. by destruct (repeat _ _).
  - rewrite length_app, repeat_length, length_map. lia.
Qed.

Lemma format_0d_length w n :
  0 <= n < 10 ^ Z.of_nat w -> (0 < w)%nat -> length (format_0d w n) = w.
Proof.
  intros Hn Hw. unfold format_0d.
  replace (n <? 0) with false by lia.
  rewrite Z.abs_eq by lia.
  pose proof (decimal_length n w Hn Hw).
  rewrite length_app, repeat_length. lia.
Qed.

Lemma format_0d_neg w n : n < 0 ->
  exists ds, format_0d w n = "-"%char :: map digit_char ds
             /\ Forall is_digit_val ds /\ of_digits ds = - n /\ ds <> [].
Proof.
  intros Hn. unfold format_0d.
  replace (n <? 0) with true by lia.
  rewrite Z.abs_neq by lia.
  destruct (decimal_spec (- n) ltac:(lia)) as (ds & -> & HF & Hv & Hne).
  exists (repeat 0 (w - 1 - length (map digit_char ds)) ++ ds).
  split; [|split; [|split]].
  - f_equal. rewrite map_app. f_equal. generalize (w - 1 - length (map digit_char ds))%nat.
    intros k. induction k; simpl; [done|by f_equal].
  - apply Forall_app. split; [|done].
    apply Forall_forall. intros x Hx%list_elem_of_In%repeat_spec. subst. unfold is_digit_val. lia.
  - by rewrite of_digits_zeros.
  - destruct ds; [done|]. by destruct (repeat _ _).
Qed.

End NumFacts.

(** * Facts about the string operations *)

Module StrFacts.
Import Str Shape.

Lemma eqb_true a b : eqb a b = true <-> a = b.
Proof. apply Ascii.eqb_eq. Qed.

Lemma eqb_refl a : eqb a a = true.
Proof. by apply eqb_true. Qed.

Lemma eqb_false a b : eqb a b = false <-> a <> b.
Proof. apply Ascii.eqb_neq. Qed.

Lemma startswith_app p s : startswith p (p ++ s) = true.
Proof. induction p as [|a p IH]; simpl; [by destruct s|]. by rewrite eqb_refl. Qed.

Lemma startswith_spec p s : startswith p s = true -> s = p ++ drop (length p) s.
Proof.
  revert s. induction p as [|a p IH]; intros s H; [done|].
  destruct s as [|b s]; [done|]. simpl in H.
  apply andb_true_iff in H as [->%eqb_true H]. simpl. f_equal. by apply IH.
Qed.

Lemma startswith_head c p d s : c <> d -> startswith (c :: p) (d :: s) = false.
Proof. intros H. simpl. by apply eqb_false in H as ->. Qed.

Lemma partition_cons sep c s :
  partition sep (c :: s)
  = if startswith sep (c :: s) then Some ([], drop (length sep) (c :: s))
    else match partition sep s with
         | Some (a, b) => Some (c :: a, b)
         | None => None
         end.
Proof. done. Qed.

Lemma partition_spec sep s a b :
  partition sep s = Some (a, b) -> s = a ++ sep ++ b.
Proof.
  revert a b. induction s as [|c s IH]; intros a b; simpl.
  - destruct (startswith sep []) eqn:E; [|done].
    intros [= <- <-]. apply startswith_spec in E. by rewrite <- E.
  - destruct (startswith sep (c :: s)) eqn:E.
    + intros [= <- <-]. by apply startswith_spec in E.
    + destruct (partition sep s) as [[a' b']|]; [|done].
      intros [= <- <-]. simpl. f_equal. by apply IH.
Qed.

(** The first occurrence is where the first character of the separator
    first appears, when the separator follows there. *)
Lemma partition_absent c sep a rest :
  c ∉ a -> partition (c :: sep) (a ++ (c :: sep) ++ rest) = Some (a, rest).
Proof.
  induction a as [|x a IH]; intros Hc.
  - cbn [app]. destruct rest as [|r rest'] eqn:Er.
    + rewrite app_nil_r.
      assert (H := startswith_app (c :: sep) []). rewrite app_nil_r in H.
      cbn [partition]. rewrite H.
      by rewrite drop_all.
    + assert (H := startswith_app (c :: sep) (r :: rest')).
      change ((c :: sep) ++ r :: rest') with (c :: (sep ++ r :: rest')) in *.
      cbn [partition]. rewrite H. f_equal. f_equal.
      change (c :: sep ++ r :: rest') with ((c :: sep) ++ r :: rest').
      by rewrite drop_app_length.
  - apply not_elem_of_cons in Hc as [Hx Ha].
    change ((x :: a) ++ (c :: sep) ++ rest) with (x :: (a ++ (c :: sep) ++ rest)).
    cbn [partition]. rewrite startswith_head by done.
    by rewrite IH.
Qed.

Lemma partition_none c sep a : c ∉ a -> partition (c :: sep) a = None.
Proof.
  induction a as [|x a IH]; intros Hc; [done|].
  apply not_elem_of_cons in Hc as [Hx Ha].
  cbn [partition]. rewrite startswith_head by done. by rewrite IH.
Qed.

Lemma contains_app sub a b : contains sub (a ++ sub ++ b) = true.
Proof.
  unfold contains. induction a as [|x a IH].
  - simpl. destruct (sub ++ b) eqn:E.
    + simpl. rewrite <- E. by rewrite startswith_app.
    + simpl. rewrite <- E. by rewrite startswith_app.
  - change ((x :: a) ++ sub ++ b) with (x :: (a ++ sub ++ b)).
    cbn [partition]. destruct (startswith sub _); [done|].
    by destruct (partition sub (a ++ sub ++ b)) as [[]|].
Qed.

Lemma split_fuel_enough sep : sep <> [] -> forall n s,
  (length s <= n)%nat -> split_fuel n sep s = split sep s.
Proof.
  intros Hsep n. unfold split. induction n as [n IH] using lt_wf_ind.
  intros s Hn. destruct n as [|n].
  - by replace (length s) with 0%nat by lia.
  - destruct s as [|c s'] eqn:Es.
    + simpl. destruct sep; [done|]. done.
    + rewrite <- Es in *. assert (length s = S (length s')) as Hl by (by subst).
      rewrite Hl. simpl. destruct (partition sep s) as [[a b]|] eqn:E; [|done].
      f_equal. apply partition_spec in E.
      assert (length b < length s)%nat.
      { rewrite E, !length_app. destruct sep; [done|]. simpl. lia. }
      rewrite (IH n) by lia. symmetry. apply IH; lia.
Qed.

Lemma split_cons sep s a b : sep <> [] ->
  partition sep s = Some (a, b) -> split sep s = a :: split sep b.
Proof.
  intros Hsep E. unfold split at 1. destruct (length s) as [|n] eqn:El.
  - apply partition_spec in E. rewrite E, !length_app in El.
    destruct sep; [done|]. simpl in El. lia.
  - simpl. rewrite E. f_equal. apply split_fuel_enough; [done|].
    apply partition_spec in E. rewrite E, !length_app in El.
    destruct sep; [done|]. simpl in El. lia.
Qed.

Lemma split_none sep s : partition sep s = None -> split sep s = [s].
Proof. intros E. unfold split. destruct (length s); simpl; by rewrite ?E. Qed.

(** *** Stripping *)

Lemma lstrip_by_Forall p (P : ascii -> Prop) s : Forall P s -> Forall P (lstrip_by p s).
Proof.
  induction 1 as [|c s Hc Hs IH]; simpl; [done|]. destruct (p c); [done|by constructor].
Qed.

Lemma rstrip_by_Forall p (P : ascii -> Prop) s : Forall P s -> Forall P (rstrip_by p s).
Proof.
  intros H. unfold rstrip_by. apply Forall_rev, lstrip_by_Forall. by apply Forall_rev.
Qed.

Lemma strip_Forall (P : ascii -> Prop) s : Forall P s -> Forall P (strip s).
Proof. intros. by apply rstrip_by_Forall, lstrip_by_Forall. Qed.

Lemma lstrip_by_head p s c s' : lstrip_by p s = c :: s' -> p c = false.
Proof.
  induction s as [|x s IH]; simpl; [done|].
  destruct (p x) eqn:E; [done|]. by intros [= <- <-].
Qed.

Lemma lstrip_by_id p c s : p c = false -> lstrip_by p (c :: s) = c :: s.
Proof. intros H. simpl. by rewrite H. Qed.

Lemma lstrip_by_spaces p ws s : Forall (fun c => p c = true) ws ->
  lstrip_by p (ws ++ s) = lstrip_by p s.
Proof. induction 1 as [|c ws Hc _ IH]; simpl; [done|]. by rewrite Hc. Qed.

Lemma rstrip_by_last p s c : p c = false -> rstrip_by p (s ++ [c]) = s ++ [c].
Proof.
  intros H. unfold rstrip_by. rewrite rev_app_distr. simpl. rewrite H.
  simpl. by rewrite rev_involutive.
Qed.

Lemma rstrip_by_spaces p s ws : Forall (fun c => p c = true) ws ->
  rstrip_by p (s ++ ws) = rstrip_by p s.
Proof.
  intros H. unfold rstrip_by. rewrite rev_app_distr.
  rewrite lstrip_by_spaces; [done|]. by apply Forall_rev.
Qed.

Lemma rstrip_by_last_inv p s s' c : rstrip_by p s = s' ++ [c] -> p c = false.
Proof.
  unfold rstrip_by. intros H.
  apply (f_equal (@rev ascii)) in H. rewrite rev_involutive, rev_app_distr in H.
  simpl in H. by apply lstrip_by_head in H.
Qed.

(** [rstrip] keeps the first character of what it leaves. *)
Lemma rstrip_by_head p s c s' :
  rstrip_by p s = c :: s' -> exists s'', s = c :: s''.
Proof.
  induction s as [|x s IH] using rev_ind; [done|].
  destruct (p x) eqn:E.
  - rewrite (rstrip_by_spaces p s [x]) by (by constructor).
    intros H. destruct (IH H) as [s'' ->]. by exists (s'' ++ [x]).
  - rewrite rstrip_by_last by done. destruct s; simpl; intros [= -> <-]; eauto.
Qed.

Lemma strip_trimmed s : trimmed (strip s).
Proof.
  split.
  - intros c s' H. unfold strip in H.
    destruct (rstrip_by_head _ _ _ _ H) as [s'' E].
    by apply lstrip_by_head in E.
  - intros s' c H. by apply rstrip_by_last_inv in H.
Qed.

Lemma strip_id s : trimmed s -> strip s = s.
Proof.
  intros [Hh Hl]. unfold strip. destruct s as [|c s]; [done|].
  rewrite lstrip_by_id by eauto.
  destruct (exists_last (l := c :: s) ltac:(done)) as (s' & x & E).
  rewrite E. apply rstrip_by_last. eauto.
Qed.

Lemma strip_app_spaces s ws : trimmed s -> s <> [] ->
  Forall (fun c => isspace c = true) ws -> strip (s ++ ws) = s.
Proof.
  intros Ht Hne Hws. unfold strip. destruct s as [|c s]; [done|].
  change ((c :: s) ++ ws) with (c :: (s ++ ws)).
  rewrite lstrip_by_id by (destruct Ht as [Hh _]; eauto).
  change (c :: (s ++ ws)) with ((c :: s) ++ ws).
  rewrite rstrip_by_spaces by done.
  destruct (exists_last (l := c :: s) ltac:(done)) as (s' & x & E).
  rewrite E. apply rstrip_by_last. destruct Ht as [_ Hl]. eauto.
Qed.

Lemma trimmed_app a b x y : isspace x = false -> isspace y = false ->
  trimmed ((x :: a) ++ b ++ [y]).
Proof.
  intros Hx Hy. split.
  - intros c s' [= <- _]. done.
  - intros s' c H. rewrite app_assoc in H.
    apply app_inj_tail in H as [_ <-]. done.
Qed.

(** *** Blank-line separated blocks *)

Lemma partition_blank_line a c rest : NL ∉ a -> c <> NL ->
  partition [NL; NL] (a ++ NL :: c :: rest)
  = match partition [NL; NL] (c :: rest) with
    | Some (x, y) => Some (a ++ NL :: x, y)
    | None => None
    end.
Proof.
  intros Ha Hc. remember (partition [NL; NL] (c :: rest)) as P eqn:EP.
  induction a as [|x a IH].
  - cbn [app]. rewrite partition_cons, <- EP.
    replace (startswith [NL; NL] (NL :: c :: rest)) with false.
    2:{ cbn [startswith]. rewrite eqb_refl.
        replace (eqb NL c) with false; [done|].
        symmetry. apply eqb_false. congruence. }
    done.
  - apply not_elem_of_cons in Ha as [Hx Ha].
    change ((x :: a) ++ NL :: c :: rest) with (x :: (a ++ NL :: c :: rest)).
    rewrite partition_cons, startswith_head by done.
    rewrite IH by done. by destruct P as [[]|].
Qed.

Lemma universal_newlines_id s : CR ∉ s -> universal_newlines s = s.
Proof.
  induction s as [|c s IH]; [done|]. intros [Hc Hs]%not_elem_of_cons.
  simpl. replace (eqb c CR) with false by (symmetry; by apply eqb_false).
  by rewrite IH.
Qed.

End StrFacts.

(** * Reading back formatted numbers *)

Module ParseFacts.
Import Num NumFacts Str StrFacts Shape.

Lemma digit_char_inj_code d c : is_digit_val d -> digit_char d = c -> code c = 48 + d.
Proof. intros H <-. by apply code_digit_char. Qed.

Lemma isdigit_digit_char d : is_digit_val d -> isdigit (digit_char d) = true.
Proof.
  intros H. unfold isdigit. rewrite code_digit_char by done.
  unfold is_digit_val in H. apply andb_true_iff. lia.
Qed.

Lemma isspace_digit_char d : is_digit_val d -> isspace (digit_char d) = false.
Proof.
  intros H. unfold isspace. rewrite code_digit_char by done.
  unfold is_digit_val in H.
  repeat (apply orb_false_iff; split); try apply andb_false_iff; lia.
Qed.

Lemma digit_val_nondigit c : isdigit c = false -> digit_val c = None.
Proof. intros H. unfold digit_val. by rewrite H. Qed.

Lemma digit_char_neq d c : is_digit_val d -> isdigit c = false -> digit_char d <> c.
Proof.
  intros Hd Hc E. subst c. by rewrite isdigit_digit_char in Hc.
Qed.

Lemma digitpart_stop rest : stops rest -> digitpart rest = ([], rest).
Proof.
  destruct rest as [|c r]; [done|]. intros [Hc _]. simpl.
  by rewrite digit_val_nondigit.
Qed.

Lemma digitpart_cons c s' :
  digitpart (c :: s')
  = match digit_val c with
    | None => ([], c :: s')
    | Some d =>
      let '(ds, r) :=
        match s' with
        | u :: s'' =>
          if eqb u "_"%char then
            match digitpart s'' with
            | ([], _) => ([], s')
            | res => res
            end
          else digitpart s'
        | [] => ([], [])
        end in
      (d :: ds, r)
    end.
Proof. done. Qed.

Lemma digitpart_digits ds rest : Forall is_digit_val ds -> stops rest ->
  digitpart (map digit_char ds ++ rest) = (ds, rest).
Proof.
  intros Hds Hrest. induction Hds as [|d ds Hd Hds IH]; [by apply digitpart_stop|].
  cbn [map app]. rewrite digitpart_cons, digit_val_char by done.
  destruct (map digit_char ds ++ rest) as [|u s''] eqn:E.
  - destruct ds; [|done]. simpl in E. by subst.
  - destruct (eqb u "_"%char) eqn:Eu.
    + apply eqb_true in Eu. subst u. exfalso.
      destruct Hds as [|d' ds' Hd' _]; simpl in E.
      * subst rest. by destruct Hrest.
      * injection E as E _. by apply (digit_char_neq d' "_"%char).
    + by rewrite IH.
Qed.

Lemma Forall_nonspace_trimmed s : Forall (fun c => isspace c = false) s -> trimmed s.
Proof.
  intros H. split.
  - intros c s' ->. by inversion H.
  - intros s' c ->. apply Forall_app in H as [_ H]. by inversion H.
Qed.

Lemma digits_nonspace ds : Forall is_digit_val ds ->
  Forall (fun c => isspace c = false) (map digit_char ds).
Proof.
  intros H. apply Forall_map. eapply Forall_impl; [exact H|].
  intros. by apply isspace_digit_char.
Qed.

Lemma split_sign_digit d s : is_digit_val d ->
  split_sign (digit_char d :: s) = (false, digit_char d :: s).
Proof.
  intros H. unfold split_sign.
  replace (eqb (digit_char d) "-"%char) with false.
  2:{ symmetry. apply eqb_false. by apply digit_char_neq. }
  replace (eqb (digit_char d) "+"%char) with false.
  2:{ symmetry. apply eqb_false. by apply digit_char_neq. }
  done.
Qed.

Lemma py_int_digits ds : Forall is_digit_val ds -> ds <> [] ->
  py_int (map digit_char ds) = Ok (of_digits ds).
Proof.
  intros Hds Hne. unfold py_int.
  rewrite strip_id by by apply Forall_nonspace_trimmed, digits_nonspace.
  destruct ds as [|d ds]; [done|]. cbn [map].
  inversion Hds; subst.
  rewrite split_sign_digit by done.
  change (digit_char d :: map digit_char ds) with (map digit_char (d :: ds)).
  rewrite <- (app_nil_r (map digit_char (d :: ds))).
  by rewrite digitpart_digits.
Qed.

Lemma py_int_minus_digits ds : Forall is_digit_val ds -> ds <> [] ->
  py_int ("-"%char :: map digit_char ds) = Ok (- of_digits ds).
Proof.
  intros Hds Hne. unfold py_int.
  rewrite strip_id.
  2:{ apply Forall_nonspace_trimmed. constructor; [done|]. by apply digits_nonspace. }
  cbn [split_sign]. change (eqb "-" "-") with true. cbn iota.
  rewrite <- (app_nil_r (map digit_char ds)).
  rewrite digitpart_digits by done.
  by destruct ds.
Qed.

(** [int()] reads back what the zero-padded format wrote. *)
Lemma py_int_format_0d w z : py_int (format_0d w z) = Ok z.
Proof.
  destruct (Z.lt_ge_cases z 0) as [Hz|Hz].
  - destruct (format_0d_neg w z Hz) as (ds & -> & Hds & Hv & Hne).
    rewrite py_int_minus_digits by done. f_equal. lia.
  - destruct (format_0d_nonneg w z Hz) as (ds & -> & Hds & Hv & Hne & _).
    rewrite py_int_digits by done. by f_equal.
Qed.

Lemma lower_digit_char d : is_digit_val d -> lower (digit_char d) = digit_char d.
Proof.
  intros H. unfold lower. rewrite code_digit_char by done.
  unfold is_digit_val in H.
  replace ((65 <=? 48 + d) && (48 + d <=? 90)) with false; [done|].
  symmetry. apply andb_false_iff. lia.
Qed.

Lemma str_eqb_head_digit d s (lit : str) : is_digit_val d ->
  match lit with c :: _ => isdigit c = false | [] => True end ->
  str_eqb (map lower (digit_char d :: s)) lit = false.
Proof.
  intros Hd Hlit. unfold str_eqb. apply bool_decide_eq_false.
  cbn [map]. rewrite lower_digit_char by done.
  destruct lit as [|c lit]; [done|]. intros [= E _].
  by apply (digit_char_neq d c).
Qed.

(** [float()] reads a fixed-point text [digits.digits] exactly. *)
Lemma py_float_fixed ds1 ds2 :
  Forall is_digit_val ds1 -> Forall is_digit_val ds2 -> ds1 <> [] ->
  py_float (map digit_char ds1 ++ "."%char :: map digit_char ds2)
  = Ok (Fin (inject_Z (of_digits (ds1 ++ ds2))
             * pow10 (0 - Z.of_nat (length ds2)))).
Proof.
  intros H1 H2 Hne. unfold py_float.
  rewrite strip_id.
  2:{ apply Forall_nonspace_trimmed, Forall_app. split; [by apply digits_nonspace|].
      constructor; [done|]. by apply digits_nonspace. }
  destruct ds1 as [|d ds1]; [done|]. inversion H1; subst.
  cbn [map app]. rewrite split_sign_digit by done.
  rewrite !str_eqb_head_digit by done. cbn [orb].
  unfold floatnumber.
  change (digit_char d :: map digit_char ds1 ++ "."%char :: map digit_char ds2)
    with (map digit_char (d :: ds1) ++ "."%char :: map digit_char ds2).
  rewrite digitpart_digits by done.
  change (eqb "." ".") with true. cbn iota.
  rewrite <- (app_nil_r (map digit_char ds2)).
  rewrite digitpart_digits by done.
  cbn [app exponent]. done.
Qed.

End ParseFacts.

Module CodecFacts.
Import Num NumFacts Str StrFacts ParseFacts Shape.

Lemma Qfloor_div (a b : Z) : 0 < b -> Qfloor (inject_Z a / inject_Z b) = a / b.
Proof. intros. symmetry. apply Zdiv_Qdiv. Qed.

Lemma inject_Z_div_mod (a b : Z) : 0 < b ->
  (inject_Z a == inject_Z (a / b) * inject_Z b + inject_Z (a mod b))%Q.
Proof.
  intros Hb. rewrite <- inject_Z_mult, <- inject_Z_plus.
  rewrite (Z.div_mod a b) at 1 by lia.
  by rewrite Z.mul_comm.
Qed.

Lemma int_of_float_Z z : int_of_float (inject_Z z) = z.
Proof.
  unfold int_of_float. destruct (Qle_bool 0 (inject_Z z)).
  - apply Qfloor_Z.
  - apply Qceiling_Z.
Qed.

Lemma int_of_float_nonneg x : (0 <= x)%Q -> int_of_float x = Qfloor x.
Proof.
  intros H. unfold int_of_float. apply Qle_bool_iff in H. by rewrite H.
Qed.

(** Quotient and remainder of [n/m] seconds by [d] seconds. *)
Lemma divmod_scaled (x : Q) (n m d : Z) : 0 < m -> 0 < d ->
  (x == inject_Z n / inject_Z m)%Q ->
  Qfloor (x / inject_Z d) = n / (m * d)
  /\ (x - inject_Z (n / (m * d)) * inject_Z d == inject_Z (n mod (m * d)) / inject_Z m)%Q.
Proof.
  intros Hm Hd Hx.
  assert (Hmq : ~ (inject_Z m == 0)%Q).
  { intros E. apply (inject_Z_injective m 0) in E. lia. }
  assert (Hdq : ~ (inject_Z d == 0)%Q).
  { intros E. apply (inject_Z_injective d 0) in E. lia. }
  split.
  - rewrite <- Qfloor_div by lia. apply Qfloor_comp.
    rewrite Hx, inject_Z_mult. by field.
  - rewrite Hx. rewrite (inject_Z_div_mod n (m * d)) at 1 by lia.
    rewrite inject_Z_mult. by field.
Qed.

Lemma format_time_timecode t us :
  timedelta t = Ok us -> format_time t = Ok (timecode us).
Proof.
  intros Htd. unfold format_time. rewrite Htd. cbn [rbind].
  unfold divmod, fmod, divmod. cbn [fst snd].
  set (ts := total_seconds us).
  assert (Hts : (ts == inject_Z us / inject_Z 1000000)%Q) by done.
  destruct (divmod_scaled ts us 1000000 3600 ltac:(lia) ltac:(lia) Hts) as [Hh Hr].
  change (inject_Z 3600) with (3600 : Q) in *.
  rewrite Hh. change (1000000 * 3600) with 3600000000 in *.
  set (rem := (ts - inject_Z (us / 3600000000) * 3600)%Q) in *.
  destruct (divmod_scaled rem (us mod 3600000000) 1000000 60 ltac:(lia) ltac:(lia) Hr)
    as [Hm Hs].
  change (inject_Z 60) with (60 : Q) in *.
  rewrite Hm. change (1000000 * 60) with 60000000 in *.
  set (sec := (rem - inject_Z (us mod 3600000000 / 60000000) * 60)%Q) in *.
  assert (Hmm : (us mod 3600000000) mod 60000000 = us mod 60000000).
  { pose proof (Z.div_mod us 3600000000 ltac:(lia)).
    pose proof (Z.mod_pos_bound us 3600000000 ltac:(lia)).
    pose proof (Z.div_mod (us mod 3600000000) 60000000 ltac:(lia)).
    pose proof (Z.mod_pos_bound (us mod 3600000000) 60000000 ltac:(lia)).
    apply (Z.mod_unique us 60000000
                       (us / 3600000000 * 60 + us mod 3600000000 / 60000000)); lia. }
  rewrite Hmm in Hs.
  destruct (divmod_scaled sec (us mod 60000000) 1000000 1 ltac:(lia) ltac:(lia) Hs)
    as [Hf Hfrac].
  change (inject_Z 1) with (1 : Q) in *. change (1000000 * 1) with 1000000 in *.
  rewrite Hf.
  assert (Hmm2 : (us mod 60000000) mod 1000000 = us mod 1000000).
  { pose proof (Z.div_mod us 60000000 ltac:(lia)).
    pose proof (Z.mod_pos_bound us 60000000 ltac:(lia)).
    pose proof (Z.div_mod (us mod 60000000) 1000000 ltac:(lia)).
    pose proof (Z.mod_pos_bound (us mod 60000000) 1000000 ltac:(lia)).
    apply (Z.mod_unique us 1000000
                       (us / 60000000 * 60 + us mod 60000000 / 1000000)); lia. }
  rewrite Hmm2 in Hfrac.
  rewrite !int_of_float_Z.
  assert (Hsec : int_of_float sec = us mod 60000000 / 1000000).
  { rewrite int_of_float_nonneg.
    - rewrite (Qfloor_comp _ _ Hs). apply Qfloor_div. lia.
    - rewrite Hs. apply Qle_shift_div_l; [done|]. rewrite Qmult_0_l.
      change 0%Q with (inject_Z 0). rewrite <- Zle_Qle.
      apply Z.mod_pos_bound. lia. }
  rewrite Hsec.
  assert (Hms : int_of_float ((sec - inject_Z (us mod 60000000 / 1000000) * 1) * 1000)
                = us mod 1000000 / 1000).
  { assert (E : ((sec - inject_Z (us mod 60000000 / 1000000) * 1) * 1000
                 == inject_Z (us mod 1000000) / inject_Z 1000)%Q).
    { rewrite Hfrac. change (inject_Z 1000000) with (1000000 : Q).
      change (inject_Z 1000) with (1000 : Q). by field. }
    rewrite int_of_float_nonneg.
    - rewrite (Qfloor_comp _ _ E). apply Qfloor_div. lia.
    - rewrite E. apply Qle_shift_div_l; [done|]. rewrite Qmult_0_l.
      change 0%Q with (inject_Z 0). rewrite <- Zle_Qle.
      apply Z.mod_pos_bound. lia. }
  rewrite Hms. done.
Qed.

End CodecFacts.

Module TimecodeFacts.
Import Num NumFacts Str StrFacts ParseFacts CodecFacts Shape.

Lemma digits_chars ds c : Forall is_digit_val ds -> isdigit c = false ->
  c ∉ map digit_char ds.
Proof.
  intros Hds Hc Hin. apply list_elem_of_fmap in Hin as (d & -> & Hd).
  rewrite Forall_forall in Hds. specialize (Hds d Hd).
  by rewrite isdigit_digit_char in Hc.
Qed.

(** A zero-padded number holds digits and at most a minus sign. *)
Lemma format_0d_chars w z c : isdigit c = false -> c <> "-"%char ->
  c ∉ format_0d w z.
Proof.
  intros Hc Hm. destruct (Z.lt_ge_cases z 0) as [Hz|Hz].
  - destruct (format_0d_neg w z Hz) as (ds & -> & Hds & _).
    apply not_elem_of_cons. split; [done|]. by apply digits_chars.
  - destruct (format_0d_nonneg w z Hz) as (ds & -> & Hds & _).
    by apply digits_chars.
Qed.

Lemma format_0d_nonempty w z : format_0d w z <> [].
Proof.
  destruct (Z.lt_ge_cases z 0) as [Hz|Hz].
  - by destruct (format_0d_neg w z Hz) as (ds & -> & _).
  - destruct (format_0d_nonneg w z Hz) as (ds & -> & _ & _ & Hne & _).
    by destruct ds.
Qed.

Lemma format_0d_nonspace w z : Forall (fun c => isspace c = false) (format_0d w z).
Proof.
  destruct (Z.lt_ge_cases z 0) as [Hz|Hz].
  - destruct (format_0d_neg w z Hz) as (ds & -> & Hds & _).
    constructor; [done|]. by apply digits_nonspace.
  - destruct (format_0d_nonneg w z Hz) as (ds & -> & Hds & _).
    by apply digits_nonspace.
Qed.

Lemma timecode_chars us c : isdigit c = false -> c <> "-"%char ->
  c <> ":"%char -> c <> ","%char -> c ∉ timecode us.
Proof.
  intros Hd Hm Hc Hk. unfold timecode.
  repeat (apply not_elem_of_app; split);
    try (by apply format_0d_chars);
    by apply not_elem_of_cons; split; [|apply not_elem_of_nil].
Qed.

Lemma timecode_nonspace us : Forall (fun c => isspace c = false) (timecode us).
Proof.
  unfold timecode. repeat (apply Forall_app; split);
    try apply format_0d_nonspace; by repeat constructor.
Qed.

Lemma timecode_nonempty us : timecode us <> [].
Proof.
  unfold timecode. pose proof (format_0d_nonempty 2 (us / 3600000000)).
  by destruct (format_0d 2 _).
Qed.

Lemma split3 (c : ascii) (a b d : str) : c ∉ a -> c ∉ b -> c ∉ d ->
  split [c] (a ++ [c] ++ b ++ [c] ++ d) = [a; b; d].
Proof.
  intros Ha Hb Hd.
  rewrite (split_cons [c] _ a (b ++ [c] ++ d)); [|done|by apply partition_absent].
  rewrite (split_cons [c] _ b d); [|done|by apply partition_absent].
  rewrite split_none; [done|by apply partition_none].
Qed.

Lemma split2 (c : ascii) (sep a b : str) : c ∉ a -> c ∉ b ->
  split (c :: sep) (a ++ (c :: sep) ++ b) = [a; b].
Proof.
  intros Ha Hb.
  rewrite (split_cons (c :: sep) _ a b); [|done|by apply partition_absent].
  rewrite split_none; [done|by apply partition_none].
Qed.

Lemma pow10_m3 : (pow10 (0 - 3) == 1 / 1000)%Q.
Proof. done. Qed.

Lemma assemble_ms (h m s ms : Z) :
  (inject_Z (h * 3600 + m * 60) + inject_Z (s * 1000 + ms) * (1 / 1000)
   == inject_Z ((h * 3600 + m * 60) * 1000 + (s * 1000 + ms)) / 1000)%Q.
Proof.
  repeat (rewrite inject_Z_plus || rewrite inject_Z_mult).
  change (inject_Z 1000) with 1000%Q. field.
Qed.

(** [parse_time_string] reads a time code back to its whole
    milliseconds. *)
Lemma parse_time_string_timecode us :
  exists v, parse_time_string (timecode us) = Ok (Fin v) /\ (v == ms_floor us)%Q.
Proof.
  set (H := us / 3600000000). set (Mi := us mod 3600000000 / 60000000).
  set (S := us mod 60000000 / 1000000). set (ms := us mod 1000000 / 1000).
  assert (HS : 0 <= S).
  { apply Z.div_pos; [|lia]. apply Z.mod_pos_bound. lia. }
  assert (Hms : 0 <= ms < 10 ^ Z.of_nat 3).
  { subst ms. pose proof (Z.mod_pos_bound us 1000000 ltac:(lia)).
    split; [apply Z.div_pos; lia|]. apply Z.div_lt_upper_bound; simpl; lia. }
  destruct (format_0d_nonneg 2 S HS) as (ds1 & E1 & Hds1 & Hv1 & Hne1 & _).
  destruct (format_0d_nonneg 3 ms ltac:(lia)) as (ds2 & E2 & Hds2 & Hv2 & Hne2 & _).
  assert (Hl2 : length ds2 = 3%nat).
  { pose proof (format_0d_length 3 ms Hms ltac:(lia)) as Hl.
    by rewrite E2, length_map in Hl. }
  unfold parse_time_string, replace.
  assert (Esplit : split "," (timecode us)
                   = [format_0d 2 H ++ ":" ++ format_0d 2 Mi ++ ":" ++ format_0d 2 S;
                      format_0d 3 ms]).
  { unfold timecode. fold H Mi S ms.
    replace (format_0d 2 H ++ ":" ++ format_0d 2 Mi ++ ":" ++ format_0d 2 S ++ "," ++ format_0d 3 ms)
      with ((format_0d 2 H ++ ":" ++ format_0d 2 Mi ++ ":" ++ format_0d 2 S)
            ++ [","%char] ++ format_0d 3 ms)
      by (by rewrite <- !app_assoc).
    apply (split2 ","%char []).
    - repeat (apply not_elem_of_app; split);
        try (by apply format_0d_chars);
        by apply not_elem_of_cons; split; [|apply not_elem_of_nil].
    - by apply format_0d_chars. }
  rewrite Esplit. cbn [join].
  assert (Eparts : split ":" ((format_0d 2 H ++ ":" ++ format_0d 2 Mi ++ ":" ++ format_0d 2 S)
                              ++ "." ++ format_0d 3 ms)
                   = [format_0d 2 H; format_0d 2 Mi; format_0d 2 S ++ "." ++ format_0d 3 ms]).
  { rewrite <- !app_assoc. apply (split3 ":"%char).
    - by apply format_0d_chars.
    - by apply format_0d_chars.
    - repeat (apply not_elem_of_app; split);
        try (by apply format_0d_chars);
        by apply not_elem_of_cons; split; [|apply not_elem_of_nil]. }
  rewrite Eparts. cbn [getitem lookup list_lookup rbind].
  rewrite !py_int_format_0d. cbn [rbind].
  rewrite E1, E2.
  change (map digit_char ds1 ++ "." ++ map digit_char ds2)
    with (map digit_char ds1 ++ "."%char :: map digit_char ds2).
  rewrite py_float_fixed by done. cbn [rbind int_add_float].
  eexists. split; [done|].
  rewrite of_digits_app, Hv1, Hv2, Hl2, pow10_m3. unfold ms_floor.
  assert (Eus : us / 1000 = (H * 3600 + Mi * 60) * 1000 + (S * 10 ^ Z.of_nat 3 + ms)).
  { subst H Mi S ms. change (10 ^ Z.of_nat 3) with 1000.
    Z.div_mod_to_equations. lia. }
  rewrite Eus. change (10 ^ Z.of_nat 3) with 1000.
  apply assemble_ms.
Qed.

End TimecodeFacts.

Module RoundFacts.
Import Num CodecFacts.

Lemma round_half_even_near x :
  (inject_Z (round_half_even x) - (1 # 2) <= x
   /\ x <= inject_Z (round_half_even x) + (1 # 2))%Q.
Proof.
  unfold round_half_even.
  pose proof (Qfloor_le x) as Hlo. pose proof (Qlt_floor x) as Hhi.
  rewrite inject_Z_plus in Hhi. change (inject_Z 1) with 1%Q in Hhi.
  destruct (Qcompare_spec (x - inject_Z (Qfloor x)) (1 # 2)) as [E|E|E];
    [destruct (Z.even (Qfloor x))| |];
    rewrite ?inject_Z_plus; change (inject_Z 1) with 1%Q;
    generalize dependent (inject_Z (Qfloor x)); intros f; split; lra.
Qed.

Lemma timedelta_Fin t us : timedelta (Fin t) = Ok us ->
  us = round_half_even (t * inject_Z US_PER_SECOND)
  /\ - MAX_DELTA_DAYS <= us / US_PER_DAY <= MAX_DELTA_DAYS.
Proof.
  unfold timedelta.
  destruct (andb _ _) eqn:E; [|done]. intros [= <-].
  split; [done|]. apply andb_true_iff in E. lia.
Qed.

Lemma timedelta_finite t us : timedelta t = Ok us -> exists q, t = Fin q.
Proof. destruct t; [eauto|done|done]. Qed.

(** Cutting to whole milliseconds loses less than a millisecond. *)
Lemma ms_floor_bounds us :
  (ms_floor us <= total_seconds us
   /\ total_seconds us <= ms_floor us + (999 # 1000000))%Q.
Proof.
  unfold ms_floor, total_seconds, US_PER_SECOND.
  pose proof (Z.div_mod us 1000 ltac:(lia)) as Hdm.
  pose proof (Z.mod_pos_bound us 1000 ltac:(lia)) as [Hr0 Hr1].
  assert (E : (inject_Z us == inject_Z (us / 1000) * 1000 + inject_Z (us mod 1000))%Q).
  { rewrite Hdm at 1. rewrite inject_Z_plus, inject_Z_mult.
    change (inject_Z 1000) with 1000%Q. ring. }
  assert (Hr2 : us mod 1000 <= 999) by lia. clear Hr1.
  rewrite Zle_Qle in Hr0. rewrite Zle_Qle in Hr2.
  change (inject_Z 0) with 0%Q in Hr0. change (inject_Z 999) with 999%Q in Hr2.
  change (inject_Z 1000000) with 1000000%Q.
  set (k := inject_Z (us / 1000)) in *. set (r := inject_Z (us mod 1000)) in *.
  generalize dependent (inject_Z us). clearbody k r. intros u E.
  unfold Qdiv. change (/ 1000000)%Q with (1 # 1000000)%Q.
  change (/ 1000)%Q with (1 # 1000)%Q. split; lra.
Qed.

Lemma total_seconds_near t us : timedelta (Fin t) = Ok us ->
  (total_seconds us - (1 # 2000000) <= t /\ t <= total_seconds us + (1 # 2000000))%Q.
Proof.
  intros [-> _]%timedelta_Fin.
  pose proof (round_half_even_near (t * inject_Z US_PER_SECOND)) as [Hlo Hhi].
  unfold total_seconds, US_PER_SECOND in *.
  change (inject_Z 1000000) with 1000000%Q in *.
  set (u := inject_Z (round_half_even (t * 1000000))) in *. clearbody u.
  unfold Qdiv. change (/ 1000000)%Q with (1 # 1000000)%Q. split; lra.
Qed.

End RoundFacts.

(** The codec, both ways: within the range of [timedelta], [format_time]
    writes the time code of the rounded microseconds and [parse_time_string]
    reads it back to the whole milliseconds, less than a millisecond away
    from the input. *)
Lemma codec_roundtrip (t : Q) (us : Z) :
  timedelta (Fin t) = Ok us ->
  format_time (Fin t) = Ok (timecode us)
  /\ exists v, parse_time_string (timecode us) = Ok (Fin v)
               /\ (v == ms_floor us)%Q /\ (Qabs (v - t) < 1 # 1000)%Q.
Proof.
  intros Htd. split; [by apply CodecFacts.format_time_timecode|].
  destruct (TimecodeFacts.parse_time_string_timecode us) as (v & Hp & Hv).
  exists v. split; [done|]. split; [done|].
  pose proof (RoundFacts.ms_floor_bounds us) as [H1 H2].
  pose proof (RoundFacts.total_seconds_near t us Htd) as [H3 H4].
  apply Qabs_diff_Qlt_condition. rewrite Hv.
  generalize dependent (ms_floor us). generalize dependent (total_seconds us).
  intros. split; lra.
Qed.

Module SrtFacts.
Import Num NumFacts Str StrFacts ParseFacts CodecFacts TimecodeFacts Shape.

Lemma is_ok_inv {A} (r : result A) : is_ok r = true -> exists a, r = Ok a.
Proof. destruct r; [eauto|done]. Qed.

Lemma tc_format t : is_ok (timedelta t) = true -> format_time t = Ok (tc t).
Proof.
  intros [us H]%is_ok_inv. unfold tc. rewrite H. by apply format_time_timecode.
Qed.

Lemma srt_block_ready i seg : srt_ready seg ->
  srt_block i seg = Ok (block i seg ++ [NL; NL]).
Proof.
  intros (Hs & He & _). unfold srt_block.
  rewrite (tc_format _ Hs), (tc_format _ He). cbn [rbind]. unfold block.
  f_equal. by rewrite <- ?app_assoc.
Qed.

Lemma write_blocks_ready segs : forall i written, Forall srt_ready segs ->
  write_blocks i segs written
  = (written ++ concat (map (fun b => b ++ [NL; NL]) (blocks_from i segs)), Ok tt).
Proof.
  induction segs as [|seg segs IH]; intros i written Hr; simpl.
  - by rewrite app_nil_r.
  - inversion Hr as [|? ? Hseg Hrest]; subst.
    rewrite srt_block_ready by done. rewrite IH by done.
    by rewrite <- ?app_assoc.
Qed.

(** *** The shape of a block *)

Lemma str_of_int_digits i : 0 <= i ->
  exists ds, str_of_int i = map digit_char ds /\ Forall is_digit_val ds /\ ds <> [].
Proof.
  intros Hi. unfold str_of_int. replace (i <? 0) with false by lia.
  destruct (decimal_spec i Hi) as (ds & E & Hds & _ & Hne). eauto.
Qed.

Lemma line_index i : 0 <= i -> line (str_of_int i).
Proof.
  intros Hi. destruct (str_of_int_digits i Hi) as (ds & -> & Hds & Hne).
  split; [by apply digits_chars|by apply digits_chars|by destruct ds].
Qed.

Lemma tc_timecode t : is_ok (timedelta t) = true -> exists us, tc t = timecode us.
Proof. intros [us H]%is_ok_inv. exists us. unfold tc. by rewrite H. Qed.

Lemma line_time_line s e :
  is_ok (timedelta s) = true -> is_ok (timedelta e) = true ->
  line (tc s ++ " --> " ++ tc e).
Proof.
  intros [us ->]%tc_timecode [ue ->]%tc_timecode. split.
  - apply not_elem_of_app; split; [by apply timecode_chars|].
    apply not_elem_of_app; split; [|by apply timecode_chars].
    intros H. repeat (apply elem_of_cons in H as [H|H]; [done|]). by apply elem_of_nil in H.
  - apply not_elem_of_app; split; [by apply timecode_chars|].
    apply not_elem_of_app; split; [|by apply timecode_chars].
    intros H. repeat (apply elem_of_cons in H as [H|H]; [done|]). by apply elem_of_nil in H.
  - pose proof (timecode_nonempty us). by destruct (timecode us).
Qed.

Lemma printable_not_in c s : isprintable c = false ->
  Forall (fun c => isprintable c = true) s -> c ∉ s.
Proof.
  intros Hc Hs Hin. rewrite Forall_forall in Hs. specialize (Hs c Hin). congruence.
Qed.

Lemma line_text seg : srt_ready seg -> line (strip (seg_text seg)).
Proof.
  intros (_ & _ & Hp & Hne).
  assert (Hp' := strip_Forall _ _ Hp).
  split; [by apply printable_not_in|by apply printable_not_in|done].
Qed.

(** The blank line ends the block: it occurs nowhere inside three lines. *)
Lemma partition_three_lines a b c rest : line a -> line b -> line c ->
  partition [NL; NL] ((a ++ [NL] ++ b ++ [NL] ++ c) ++ [NL; NL] ++ rest)
  = Some (a ++ [NL] ++ b ++ [NL] ++ c, rest).
Proof.
  intros [Ha _ _] [Hb _ Hbn] [Hc _ Hcn].
  destruct b as [|x b]; [done|]. destruct c as [|y c]; [done|].
  apply not_elem_of_cons in Hb as Hb'. destruct Hb' as [Hx Hb'].
  apply not_elem_of_cons in Hc as Hc'. destruct Hc' as [Hy Hc'].
  replace ((a ++ [NL] ++ (x :: b) ++ [NL] ++ y :: c) ++ [NL; NL] ++ rest)
    with (a ++ NL :: x :: (b ++ NL :: y :: (c ++ [NL; NL] ++ rest))).
  2:{ rewrite <- ?app_assoc. simpl. by rewrite <- ?app_assoc. }
  rewrite partition_blank_line; [|done|congruence].
  change (x :: b ++ NL :: y :: c ++ [NL; NL] ++ rest)
    with ((x :: b) ++ NL :: y :: (c ++ [NL; NL] ++ rest)).
  rewrite partition_blank_line; [|done|congruence].
  change (y :: c ++ [NL; NL] ++ rest) with ((y :: c) ++ [NL; NL] ++ rest).
  rewrite partition_absent by done.
  f_equal; f_equal; simpl; by rewrite <- ?app_assoc.
Qed.

Lemma partition_three_lines_end a b c : line a -> line b -> line c ->
  partition [NL; NL] (a ++ [NL] ++ b ++ [NL] ++ c) = None.
Proof.
  intros [Ha _ _] [Hb _ Hbn] [Hc _ Hcn].
  destruct b as [|x b]; [done|]. destruct c as [|y c]; [done|].
  apply not_elem_of_cons in Hb as Hb'. destruct Hb' as [Hx Hb'].
  apply not_elem_of_cons in Hc as Hc'. destruct Hc' as [Hy Hc'].
  replace (a ++ [NL] ++ (x :: b) ++ [NL] ++ y :: c)
    with (a ++ NL :: x :: (b ++ NL :: y :: c)).
  2:{ simpl. by rewrite <- ?app_assoc. }
  rewrite partition_blank_line; [|done|congruence].
  change (x :: b ++ NL :: y :: c) with ((x :: b) ++ NL :: y :: c).
  rewrite partition_blank_line; [|done|congruence].
  by rewrite partition_none.
Qed.

Lemma trimmed_ends (x y : ascii) a b : isspace x = false -> isspace y = false ->
  trimmed ((x :: a) ++ b ++ [y]).
Proof.
  intros Hx Hy. split.
  - by intros c s' [= <- _].
  - intros s' c H. rewrite app_assoc in H. by apply app_inj_tail in H as [_ <-].
Qed.

Lemma block_shaped i seg : 0 <= i -> srt_ready seg -> block_shape (block i seg).
Proof.
  intros Hi Hr. pose proof Hr as (Hs & He & Hp & Hne).
  assert (E : block i seg
              = str_of_int i ++ [NL]
                ++ (tc (seg_start seg) ++ " --> " ++ tc (seg_end seg)) ++ [NL]
                ++ strip (seg_text seg)).
  { unfold block. by rewrite <- ?app_assoc. }
  rewrite E. constructor.
  - by apply line_index.
  - by apply line_time_line.
  - by apply line_text.
  - rewrite <- E. clear E.
    destruct (str_of_int_digits i Hi) as (ds & E & Hds & Hds_ne).
    unfold block. rewrite E.
    destruct ds as [|d ds]; [done|]. inversion Hds; subst.
    destruct (exists_last Hne) as (txt & y & Ey).
    rewrite Ey.
    pose proof (strip_trimmed (seg_text seg)) as [_ Hlast].
    specialize (Hlast txt y Ey).
    cbn [map].
    replace ((digit_char d :: map digit_char ds) ++
             [NL] ++ tc (seg_start seg) ++ " --> " ++ tc (seg_end seg) ++ [NL] ++ txt ++ [y])
      with ((digit_char d :: map digit_char ds) ++
            ([NL] ++ tc (seg_start seg) ++ " --> " ++ tc (seg_end seg) ++ [NL] ++ txt) ++ [y]).
    2:{ by rewrite <- ?app_assoc. }
    apply trimmed_ends; [by apply isspace_digit_char|done].
Qed.

End SrtFacts.

Module DocFacts.
Import Num NumFacts Str StrFacts ParseFacts CodecFacts TimecodeFacts SrtFacts Shape.

Lemma block_shape_trimmed b : block_shape b -> trimmed b /\ b <> [].
Proof.
  intros [a t c [_ _ Ha] _ _ Ht]. split; [done|]. by destruct a.
Qed.

Lemma trimmed_app3 x mid y : trimmed x -> x <> [] -> trimmed y -> y <> [] ->
  trimmed (x ++ mid ++ y).
Proof.
  intros [Hx _] Hxn [_ Hy] Hyn.
  destruct x as [|c x]; [done|].
  destruct (exists_last Hyn) as (y' & d & ->).
  replace ((c :: x) ++ mid ++ y' ++ [d]) with ((c :: x) ++ (mid ++ y') ++ [d])
    by (by rewrite <- ?app_assoc).
  apply trimmed_ends; eauto.
Qed.

Lemma join_blocks_trimmed bs : Forall block_shape bs -> bs <> [] ->
  trimmed (join [NL; NL] bs) /\ join [NL; NL] bs <> [].
Proof.
  induction 1 as [|b bs Hb Hbs IH]; [done|]. intros _.
  destruct (block_shape_trimmed b Hb) as [Ht Hn].
  destruct bs as [|b' bs]; [done|].
  destruct IH as [IHt IHn]; [done|].
  change (join [NL; NL] (b :: b' :: bs)) with (b ++ [NL; NL] ++ join [NL; NL] (b' :: bs)).
  split; [by apply trimmed_app3|by destruct b].
Qed.

Lemma concat_blocks bs : bs <> [] ->
  concat (map (fun b => b ++ [NL; NL]) bs) = join [NL; NL] bs ++ [NL; NL].
Proof.
  induction bs as [|b bs IH]; [done|]. intros _.
  destruct bs as [|b' bs]; [simpl; by rewrite app_nil_r|].
  change (concat (map (fun b => b ++ [NL; NL]) (b :: b' :: bs)))
    with ((b ++ [NL; NL]) ++ concat (map (fun b => b ++ [NL; NL]) (b' :: bs))).
  rewrite IH by done.
  change (join [NL; NL] (b :: b' :: bs)) with (b ++ [NL; NL] ++ join [NL; NL] (b' :: bs)).
  by rewrite <- ?app_assoc.
Qed.

Lemma split_join_blocks bs : Forall block_shape bs -> bs <> [] ->
  split [NL; NL] (join [NL; NL] bs) = bs.
Proof.
  induction 1 as [|b bs Hb Hbs IH]; [done|]. intros _.
  destruct bs as [|b' bs].
  - simpl. destruct Hb as [a t c Ha Ht Hc _].
    apply split_none. by apply partition_three_lines_end.
  - change (join [NL; NL] (b :: b' :: bs)) with (b ++ [NL; NL] ++ join [NL; NL] (b' :: bs)).
    rewrite (split_cons _ _ b (join [NL; NL] (b' :: bs))); [|done|].
    + by rewrite IH.
    + destruct Hb as [a t c Ha Ht Hc _]. by apply partition_three_lines.
Qed.

Lemma blocks_from_shaped segs : forall i, 0 <= i -> Forall srt_ready segs ->
  Forall block_shape (blocks_from i segs).
Proof.
  induction segs as [|seg segs IH]; intros i Hi Hr; simpl; [done|].
  inversion Hr; subst. constructor; [by apply block_shaped|]. apply IH; [lia|done].
Qed.

Lemma line_Forall_no_cr s : line s -> CR ∉ s.
Proof. by intros []. Qed.

Lemma block_no_cr b : block_shape b -> CR ∉ b.
Proof.
  intros [a t c [_ Ha _] [_ Ht _] [_ Hc _] _].
  repeat (apply not_elem_of_app; split); try done;
    by apply not_elem_of_cons; split; [|apply not_elem_of_nil].
Qed.

Lemma document_no_cr bs : Forall block_shape bs ->
  CR ∉ concat (map (fun b => b ++ [NL; NL]) bs).
Proof.
  induction 1 as [|b bs Hb _ IH]; simpl; [apply not_elem_of_nil|].
  repeat (apply not_elem_of_app; split); [by apply block_no_cr| |done].
  intros H. repeat (apply elem_of_cons in H as [H|H]; [done|]). by apply elem_of_nil in H.
Qed.

Lemma decoded_spec t : is_ok (timedelta t) = true ->
  parse_time_string (tc t) = Ok (decoded t) /\ within_ms t (decoded t).
Proof.
  intros Hok. destruct (is_ok_inv _ Hok) as [us Hus].
  destruct (RoundFacts.timedelta_finite _ _ Hus) as [q ->].
  destruct (codec_roundtrip q us Hus) as (_ & v & Hp & _ & Hv).
  unfold decoded, tc. rewrite Hus, Hp. done.
Qed.

(** One round of the loop of [parse_srt_file] on a block that was
    written. *)
Lemma parse_block i seg rest acc : 0 <= i -> srt_ready seg ->
  parse_blocks (block i seg :: rest) acc = parse_blocks rest (acc ++ [reread seg]).
Proof.
  intros Hi Hr. pose proof Hr as (Hs & He & Hp & Hne).
  pose proof (block_shaped i seg Hi Hr) as Hshape.
  destruct (block_shape_trimmed _ Hshape) as [Ht _].
  cbn [parse_blocks]. rewrite strip_id by done.
  assert (Elines : split [NL] (block i seg)
                   = [str_of_int i; tc (seg_start seg) ++ " --> " ++ tc (seg_end seg);
                      strip (seg_text seg)]).
  { unfold block.
    replace (str_of_int i ++ [NL] ++ tc (seg_start seg) ++ " --> " ++ tc (seg_end seg)
             ++ [NL] ++ strip (seg_text seg))
      with (str_of_int i ++ [NL] ++ (tc (seg_start seg) ++ " --> " ++ tc (seg_end seg))
            ++ [NL] ++ strip (seg_text seg))
      by (by rewrite <- ?app_assoc).
    apply split3.
    - by apply line_index.
    - by apply line_time_line.
    - by apply line_text. }
  rewrite Elines. cbn [length Nat.leb getitem lookup list_lookup rbind].
  rewrite contains_app.
  assert (Etimes : split " --> " (tc (seg_start seg) ++ " --> " ++ tc (seg_end seg))
                   = [tc (seg_start seg); tc (seg_end seg)]).
  { destruct (tc_timecode _ Hs) as [us ->]. destruct (tc_timecode _ He) as [ue ->].
    apply (split2 " "%char "--> "); by apply timecode_chars. }
  rewrite Etimes.
  destruct (decoded_spec _ Hs) as [-> _]. destruct (decoded_spec _ He) as [-> _].
  cbn [rbind drop join]. done.
Qed.

Lemma parse_blocks_written segs : forall i acc, 0 <= i -> Forall srt_ready segs ->
  parse_blocks (blocks_from i segs) acc = Ok (acc ++ map reread segs).
Proof.
  induction segs as [|seg segs IH]; intros i acc Hi Hr; cbn [blocks_from map].
  - cbn [parse_blocks]. by rewrite app_nil_r.
  - inversion Hr; subst. rewrite parse_block by done.
    rewrite IH by (done || lia). by rewrite <- app_assoc.
Qed.

(** Parsing the text of a written document. *)
Lemma parse_srt_written segs : Forall srt_ready segs ->
  parse_srt (universal_newlines (fst (write_blocks 1 segs []))) = Ok (map reread segs).
Proof.
  intros Hr. rewrite write_blocks_ready by done. cbn [fst app].
  pose proof (blocks_from_shaped segs 1 ltac:(lia) Hr) as Hshape.
  rewrite universal_newlines_id by by apply document_no_cr.
  unfold parse_srt. destruct segs as [|seg segs]; [done|].
  assert (Hne : blocks_from 1 (seg :: segs) <> []) by done.
  rewrite concat_blocks by done.
  destruct (join_blocks_trimmed _ Hshape Hne) as [Ht Hn].
  rewrite strip_app_spaces; [|done|done|by repeat constructor].
  rewrite split_join_blocks by done.
  by rewrite parse_blocks_written.
Qed.

End DocFacts.

Module Run.
Import Trace.

Lemma extends_refl P s : extends P s s.
Proof. exists []. by rewrite app_nil_r. Qed.

Lemma extends_trans P s1 s2 s3 :
  extends P s1 s2 -> extends P s2 s3 -> extends P s1 s3.
Proof.
  intros (e1 & E1 & H1) (e2 & E2 & H2). exists (e1 ++ e2).
  split; [by rewrite E2, E1, app_assoc|by apply Forall_app].
Qed.

Lemma emits_weaken {A} (P Q : event -> Prop) (m : M A) :
  (forall ev, P ev -> Q ev) -> emits P m -> emits Q m.
Proof.
  intros HPQ Hm s. destruct (Hm s) as (evs & E & H). exists evs.
  split; [done|]. eapply Forall_impl; eauto.
Qed.

Lemma emits_ret {A} P (a : A) : emits P (ret a).
Proof. intros s. apply extends_refl. Qed.

Lemma emits_raise {A} P e : emits P (raise (A := A) e).
Proof. intros s. apply extends_refl. Qed.

Lemma emits_lift {A} P (r : result A) : emits P (lift r).
Proof. intros s. apply extends_refl. Qed.

Lemma emits_get_fs P : emits P get_fs.
Proof. intros s. apply extends_refl. Qed.

Lemma emits_put_fs P f : emits P (put_fs f).
Proof. intros s. exists []. by rewrite app_nil_r. Qed.

Lemma emits_tick P : emits P tick.
Proof. intros s. exists []. by rewrite app_nil_r. Qed.

Lemma emits_log (P : event -> Prop) ev : P ev -> emits P (log ev).
Proof. intros H s. exists [ev]. split; [done|by constructor]. Qed.

Lemma emits_bind {A B} P (m : M A) (k : A -> M B) :
  emits P m -> (forall a, emits P (k a)) -> emits P (bind m k).
Proof.
  intros Hm Hk s. unfold bind. specialize (Hm s).
  destruct (m s) as [[a|e] s1]; [|done].
  eapply extends_trans; [exact Hm|apply Hk].
Qed.

Lemma emits_try_except {A} P (body : M A) handler :
  emits P body -> (forall e h, handler e = Some h -> emits P h) ->
  emits P (try_except body handler).
Proof.
  intros Hb Hh s. unfold try_except. specialize (Hb s).
  destruct (body s) as [[a|e] s1]; [done|]. cbn [snd] in Hb.
  destruct (handler e) as [h|] eqn:E; [|done].
  specialize (Hh e h E s1). destruct (h s1) as [[a|e2] s2]; cbn [snd] in *;
    by eapply extends_trans.
Qed.

Lemma emits_try_finally {A} P (body : M A) cleanup :
  emits P body -> emits P cleanup -> emits P (try_finally body cleanup).
Proof.
  intros Hb Hc s. unfold try_finally. specialize (Hb s).
  destruct (body s) as [r s1]. cbn [snd] in Hb. specialize (Hc s1).
  destruct (cleanup s1) as [[?|e2] s2]; cbn [snd] in *; by eapply extends_trans.
Qed.

Lemma emits_external {A} (P : event -> Prop) c (f : nat -> FS -> result A) :
  (forall files, P (EvCall c files)) -> emits P (external c f).
Proof.
  intros H. unfold external. apply emits_bind; [apply emits_get_fs|]. intros files.
  apply emits_bind; [by apply emits_log|]. intros _.
  apply emits_bind; [apply emits_tick|]. intros n. apply emits_lift.
Qed.

Lemma emits_external_rw {A} (P : event -> Prop) c (f : nat -> FS -> result A * FS) :
  (forall files, P (EvCall c files)) -> emits P (external_rw c f).
Proof.
  intros H. unfold external_rw. apply emits_bind; [apply emits_get_fs|]. intros files.
  apply emits_bind; [by apply emits_log|]. intros _.
  apply emits_bind; [apply emits_tick|]. intros n.
  destruct (f n files) as [r files'].
  apply emits_bind; [apply emits_put_fs|]. intros _. apply emits_lift.
Qed.

Lemma emits_path_exists P p : emits P (os.path_exists p).
Proof.
  unfold os.path_exists. apply emits_bind; [apply emits_get_fs|]. intros ?. apply emits_ret.
Qed.

Lemma emits_remove (P : event -> Prop) p : P (EvRemove p) -> emits P (os.remove p).
Proof.
  intros H. unfold os.remove. apply emits_bind; [apply emits_get_fs|]. intros files.
  destruct (files !! p); [|apply emits_raise].
  apply emits_bind; [apply emits_put_fs|]. intros _. by apply emits_log.
Qed.

Lemma emits_write_text (P : event -> Prop) p c :
  P (EvWrite p c) -> emits P (os.write_text p c).
Proof.
  intros H. unfold os.write_text. apply emits_bind; [apply emits_get_fs|]. intros files.
  apply emits_bind; [apply emits_put_fs|]. intros _. by apply emits_log.
Qed.

Lemma emits_read_text (P : event -> Prop) p :
  (forall raw, P (EvRead p raw)) -> emits P (os.read_text p).
Proof.
  intros H. unfold os.read_text. apply emits_bind; [apply emits_get_fs|]. intros files.
  destruct (files !! p); [|apply emits_raise].
  apply emits_bind; [by apply emits_log|]. intros _. apply emits_ret.
Qed.

(** One step of a footprint proof: the combinators first, then the case
    analysis the code makes. *)
Ltac emits_step :=
  match goal with
  | |- emits _ (ret _) => apply emits_ret
  | |- emits _ (raise _) => apply emits_raise
  | |- emits _ (lift _) => apply emits_lift
  | |- emits _ (print _) => apply emits_log
  | |- emits _ (log _) => apply emits_log
  | |- emits _ (bind _ _) => apply emits_bind; [|intros ?]
  | |- emits _ (external _ _) => apply emits_external; intros ?
  | |- emits _ (external_rw _ _) => apply emits_external_rw; intros ?
  | |- emits _ (os.path_exists _) => apply emits_path_exists
  | |- emits _ (os.remove _) => apply emits_remove
  | |- emits _ (os.write_text _ _) => apply emits_write_text
  | |- emits _ (os.read_text _) => apply emits_read_text; intros ?
  | |- emits _ (try_finally _ _) => apply emits_try_finally
  | |- emits _ (try_except _ _) =>
    apply emits_try_except; [|let e := fresh "e" in let h := fresh "h" in
                              let E := fresh "E" in intros e h E]
  | |- emits _ (if ?b then _ else _) => destruct b
  | |- emits _ (match ?x with _ => _ end) => destruct x
  | |- emits _ (let '(_, _) := ?x in _) => destruct x
  | E : Some _ = Some _ |- _ => injection E as <-
  | E : None = Some _ |- _ => discriminate E
  | E : match ?x with _ => _ end = Some _ |- _ => destruct x
  end.

Ltac footprint := repeat emits_step; try done.

(** *** Footprints of the methods *)

Section Footprints.
Context (env : Env).

Lemma emits_extract_audio video audio :
  emits fp_extract (extract_audio env video audio).
Proof. unfold extract_audio. footprint. Qed.

Lemma emits_transcribe_audio audio :
  emits fp_transcribe (transcribe_audio env audio).
Proof. unfold transcribe_audio. footprint. Qed.

Lemma emits_create_srt_file segs path :
  emits (fp_create path) (create_srt_file segs path).
Proof. unfold create_srt_file. footprint. Qed.

Lemma emits_create_subtitle_clip srt text start end_ size :
  emits (fp_moviepy srt) (create_subtitle_clip env text start end_ size).
Proof. unfold create_subtitle_clip, new_text_clip. footprint. Qed.

Lemma emits_subtitle_clips_loop srt subs size : forall clips,
  emits (fp_moviepy srt) (subtitle_clips_loop env subs size clips).
Proof.
  induction subs as [|sub subs IH]; intros clips; cbn [subtitle_clips_loop].
  - apply emits_ret.
  - destruct (negb _); [|apply IH].
    apply emits_bind; [apply emits_create_subtitle_clip|].
    intros [clip|]; apply IH.
Qed.

Lemma emits_moviepy video srt out :
  emits (fp_moviepy srt) (add_subtitles_to_video_moviepy env video srt out).
Proof.
  unfold add_subtitles_to_video_moviepy, parse_srt_file.
  footprint. apply emits_subtitle_clips_loop.
Qed.

End Footprints.

End Run.

Module RunFacts.
Import Trace Run.

Lemma extends_bind {A B} P (m : M A) (k : A -> M B) s :
  extends P s (snd (m s)) -> (forall a, emits P (k a)) ->
  extends P s (snd (bind m k s)).
Proof.
  intros Hm Hk. unfold bind. destruct (m s) as [[a|e] s1]; [|done].
  eapply extends_trans; [exact Hm|apply Hk].
Qed.

Lemma extends_try_except {A} P (body : M A) handler s :
  extends P s (snd (body s)) -> (forall e h, handler e = Some h -> emits P h) ->
  extends P s (snd (try_except body handler s)).
Proof.
  intros Hb Hh. unfold try_except.
  destruct (body s) as [[a|e] s1]; [done|]. cbn [snd] in Hb.
  destruct (handler e) as [h|] eqn:E; [|done].
  specialize (Hh e h E s1). destruct (h s1) as [[a|e2] s2]; cbn [snd] in *;
    by eapply extends_trans.
Qed.

Lemma extends_try_finally {A} P (body : M A) cleanup s :
  extends P s (snd (body s)) -> emits P cleanup ->
  extends P s (snd (try_finally body cleanup s)).
Proof.
  intros Hb Hc. unfold try_finally.
  destruct (body s) as [r s1]. cbn [snd] in Hb. specialize (Hc s1).
  destruct (cleanup s1) as [[?|e2] s2]; cbn [snd] in *; by eapply extends_trans.
Qed.

Lemma extends_external_rw {A} (P : event -> Prop) c
    (f : nat -> FS -> result A * FS) s :
  P (EvCall c (fs s)) -> extends P s (snd (external_rw c f s)).
Proof.
  intros H. unfold external_rw, bind, get_fs, log, tick, put_fs, lift. cbn.
  destruct (f (clock s) (fs s)) as [r files']. cbn.
  exists [EvCall c (fs s)]. split; [done|by constructor].
Qed.

Lemma extends_step P s s1 s2 :
  extends P s s1 -> extends P s1 s2 -> extends P s s2.
Proof. apply extends_trans. Qed.

(** *** [create_srt_file], step by step *)

Lemma create_srt_file_run segs path s :
  let doc := fst (write_blocks 1 segs []) in
  let s1 := State (<[path := doc]> (fs s)) (clock s)
              (trace s ++ [EvPrint "Creating SRT subtitle file..."; EvWrite path doc]) in
  create_srt_file segs path s
  = match snd (write_blocks 1 segs []) with
    | Ok _ => (Ok path, State (fs s1) (clock s1)
                          (trace s1 ++ [EvPrint ("SRT file created: " ++ path)]))
    | Raise e => (Raise e, s1)
    end.
Proof.
  unfold create_srt_file. destruct (write_blocks 1 segs []) as [doc [[]|e]];
    cbn; by rewrite <- ?app_assoc.
Qed.

Section Burn.
Context (env : Env) (video_path output_path srt_path doc : str).

Lemma moviepy_good :
  emits (burn_event video_path output_path srt_path doc) (add_subtitles_to_video_moviepy env video_path temp_srt_path output_path).
Proof.
  eapply emits_weaken; [|apply emits_moviepy].
  intros [| | | |[]]; cbn; tauto.
Qed.

(** The primary path, from a state where the subtitle file holds
    [doc]. *)
Lemma with_srt_good s : fs s !! temp_srt_path = Some doc ->
  extends (burn_event video_path output_path srt_path doc) s
    (snd (add_subtitles_to_video_with_srt env video_path temp_srt_path output_path None s)).
Proof.
  intros Hdoc. unfold add_subtitles_to_video_with_srt.
  unfold bind at 1. cbn [print log].
  unfold bind at 1. cbn [style_str lift].
  set (s1 := State _ _ _).
  apply (extends_step _ _ s1).
  { exists [EvPrint "Adding subtitles to video using FFmpeg..."]. split; [done|].
    by constructor. }
  apply extends_try_except.
  - apply extends_bind.
    + unfold run_checked. apply extends_bind.
      * apply extends_external_rw. by split.
      * intros p. destruct (_ =? _); [apply emits_ret|apply emits_raise].
    + intros _. footprint.
  - intros e h E. destruct (exn_cls e); try discriminate E; injection E as <-.
    + apply emits_bind; [by apply emits_log|]. intros _. apply moviepy_good.
    + footprint.
Qed.

(** The burn contract, from any state. *)
Lemma burn_good segs s : doc = fst (write_blocks 1 segs []) ->
  extends (burn_event video_path output_path srt_path doc) s (snd (add_subtitles_to_video env video_path segs output_path s)).
Proof.
  intros Edoc. unfold add_subtitles_to_video. unfold bind at 1.
  rewrite create_srt_file_run, <- Edoc.
  destruct (snd (write_blocks 1 segs [])) as [[]|e].
  - set (s2 := State _ _ _).
    apply (extends_step _ _ s2).
    { exists [EvPrint "Creating SRT subtitle file..."; EvWrite temp_srt_path doc;
              EvPrint ("SRT file created: " ++ temp_srt_path)].
      split; [by cbn; rewrite <- app_assoc|]. repeat constructor; by right. }
    apply extends_try_finally; [|footprint; by left].
    apply extends_try_except.
    + apply with_srt_good. unfold s2. cbn [fs]. apply lookup_insert_eq.
    + intros e h [= <-]. footprint. apply moviepy_good.
  - exists [EvPrint "Creating SRT subtitle file..."; EvWrite temp_srt_path doc].
    split; [done|]. repeat constructor; by right.
Qed.

End Burn.

Lemma quiet_burn video out srt doc ev : quiet_event ev -> burn_event video out srt doc ev.
Proof. destruct ev as [| | | |[]]; cbn; tauto. Qed.

(** The events of a run of the orchestrator: quiet ones, then, when the
    transcript is there, the write of the document to the output path and
    what the burn step does. *)
Lemma generate_trace env video ovp osp cleanup s :
  let out := default_video_path video ovp in
  let srt := default_srt_path video osp in
  exists evs,
    trace (snd (generate_subtitles env video ovp osp cleanup s)) = trace s ++ evs
    /\ (Forall quiet_event evs
        \/ exists doc pre post,
             evs = pre ++ EvWrite srt doc :: post
             /\ Forall quiet_event pre
             /\ Forall (burn_event video out srt doc) post).
Proof.
  intros out srt. unfold generate_subtitles. fold (default_video_path video ovp).
  fold (default_srt_path video osp). fold out srt.
  match goal with
  | |- context [try_finally ?b ?c] => set (body := b); set (cleanup_m := c)
  end.
  assert (Hclean : emits quiet_event cleanup_m).
  { unfold cleanup_m. footprint. }
  unfold try_finally.
  assert (Hbody : exists evs, trace (snd (body s)) = trace s ++ evs
            /\ (Forall quiet_event evs
                \/ exists doc pre post,
                     evs = pre ++ EvWrite srt doc :: post
                     /\ Forall quiet_event pre
                     /\ Forall (burn_event video out srt doc) post)).
  { unfold body. unfold bind at 1.
    pose proof (emits_extract_audio env video temp_audio_path s) as (e0 & E0 & H0).
    destruct (extract_audio env video temp_audio_path s) as [[a|e] s1]; cbn [snd] in *.
    2:{ exists e0. split; [done|]. left. eapply Forall_impl; [exact H0|].
        intros [| | | |[]]; cbn; tauto. }
    assert (Hq0 : Forall quiet_event e0).
    { eapply Forall_impl; [exact H0|]. intros [| | | |[]]; cbn; tauto. }
    unfold bind at 1.
    pose proof (emits_transcribe_audio env temp_audio_path s1) as (e1 & E1 & H1).
    destruct (transcribe_audio env temp_audio_path s1) as [[segs|e] s2]; cbn [snd] in *.
    2:{ exists (e0 ++ e1). split; [by rewrite E1, E0, app_assoc|]. left.
        apply Forall_app. split; [done|]. eapply Forall_impl; [exact H1|].
        intros [| | | |[]]; cbn; tauto. }
    assert (Hq1 : Forall quiet_event e1).
    { eapply Forall_impl; [exact H1|]. intros [| | | |[]]; cbn; tauto. }
    unfold bind at 1. rewrite create_srt_file_run.
    set (doc := fst (write_blocks 1 segs [])).
    destruct (snd (write_blocks 1 segs [])) as [[]|e].
    2:{ exists (e0 ++ e1 ++ [EvPrint "Creating SRT subtitle file..."; EvWrite srt doc]).
        split; [cbn; by rewrite E1, E0, <- !app_assoc|]. right.
        exists doc, (e0 ++ e1 ++ [EvPrint "Creating SRT subtitle file..."]), [].
        split; [by rewrite <- !app_assoc|]. split; [|done].
        repeat (apply Forall_app; split); try done. by repeat constructor. }
    set (s3 := State _ _ _).
    assert (E3 : trace s3 = trace s ++ (e0 ++ e1 ++ [EvPrint "Creating SRT subtitle file..."])
                          ++ EvWrite srt doc :: [EvPrint ("SRT file created: " ++ srt)]).
    { cbn. rewrite E1, E0, <- !app_assoc. done. }
    assert (Hrest : emits (burn_event video out srt doc)
              (bind (add_subtitles_to_video env video segs out)
                 (fun _ => bind (print "Subtitle generation completed!")
                    (fun _ => bind (print ("Video with subtitles: " ++ out))
                       (fun _ => bind (print ("SRT file: " ++ srt))
                          (fun _ => ret (out, srt))))))).
    { apply emits_bind; [|intros ?; footprint].
      intros s'. by apply burn_good. }
    destruct (Hrest s3) as (e4 & E4 & H4).
    exists ((e0 ++ e1 ++ [EvPrint "Creating SRT subtitle file..."])
            ++ EvWrite srt doc :: (EvPrint ("SRT file created: " ++ srt) :: e4)).
    split.
    { rewrite E4, E3, <- !app_assoc. done. }
    right. exists doc, (e0 ++ e1 ++ [EvPrint "Creating SRT subtitle file..."]),
             (EvPrint ("SRT file created: " ++ srt) :: e4).
    split; [done|]. split.
    - repeat (apply Forall_app; split); try done. by repeat constructor.
    - by constructor. }
  destruct (body s) as [r s1]. cbn [snd] in Hbody.
  destruct Hbody as (evs & Etr & Hevs).
  destruct (Hclean s1) as (ec & Ec & Hc).
  exists (evs ++ ec). split.
  - destruct (cleanup_m s1) as [[?|?] s2]; cbn [snd] in *; by rewrite Ec, Etr, app_assoc.
  - destruct Hevs as [Hq|(doc & pre & post & -> & Hpre & Hpost)].
    + left. by apply Forall_app.
    + right. exists doc, pre, (post ++ ec). split; [by rewrite <- app_assoc|].
      split; [done|]. apply Forall_app. split; [done|].
      eapply Forall_impl; [exact Hc|]. apply quiet_burn.
Qed.

End RunFacts.

Module Steps.
Import Trace Run RunFacts.

Lemma bind_unfold {A B} (m : M A) (k : A -> M B) s :
  bind m k s = match m s with
               | (Ok a, s') => k a s'
               | (Raise e, s') => (Raise e, s')
               end.
Proof. done. Qed.

Lemma print_run line s :
  print line s = (Ok tt, State (fs s) (clock s) (trace s ++ [EvPrint line])).
Proof. done. Qed.

Lemma external_run {A} c (f : nat -> FS -> result A) s :
  external c f s
  = (f (clock s) (fs s), State (fs s) (S (clock s)) (trace s ++ [EvCall c (fs s)])).
Proof. done. Qed.

Lemma external_rw_run {A} c (f : nat -> FS -> result A * FS) s :
  external_rw c f s
  = (fst (f (clock s) (fs s)),
     State (snd (f (clock s) (fs s))) (S (clock s)) (trace s ++ [EvCall c (fs s)])).
Proof.
  unfold external_rw, bind, get_fs, log, tick, put_fs, lift. cbn.
  by destruct (f (clock s) (fs s)) as [[] ?].
Qed.

Lemma read_text_run p raw s : fs s !! p = Some raw ->
  os.read_text p s
  = (Ok (Str.universal_newlines raw),
     State (fs s) (clock s) (trace s ++ [EvRead p raw])).
Proof. intros H. unfold os.read_text, bind, get_fs. cbn. by rewrite H. Qed.

Lemma path_exists_run p s :
  os.path_exists p s = (Ok (bool_decide (is_Some (fs s !! p))), s).
Proof. done. Qed.

Lemma remove_run p s c : fs s !! p = Some c ->
  os.remove p s = (Ok tt, State (delete p (fs s)) (clock s) (trace s ++ [EvRemove p])).
Proof.
  intros H. unfold os.remove. unfold bind at 1. cbn [get_fs]. by rewrite H.
Qed.

(** The [finally] clause of [generate_subtitles] with [cleanup_temp]
    true leaves no temporary audio file, whatever the body did. *)
Lemma cleanup_removes_audio {A} (body : M A) s :
  fs (snd (try_finally body
             (bind (os.path_exists temp_audio_path)
                (fun present =>
                   if present then
                     bind (os.remove temp_audio_path)
                       (fun _ => print "Temporary audio file cleaned up")
                   else ret tt)) s)) !! temp_audio_path = None.
Proof.
  unfold try_finally. destruct (body s) as [r s1].
  unfold bind at 1. rewrite path_exists_run.
  destruct (fs s1 !! temp_audio_path) as [c|] eqn:E.
  - rewrite bool_decide_eq_true_2 by eauto.
    unfold bind. rewrite (remove_run _ _ c E). cbn [print log snd fs].
    apply lookup_delete_eq.
  - rewrite bool_decide_eq_false_2 by (by intros [? ?]). cbn [ret snd]. done.
Qed.

End Steps.

(** C6, as the code has it.  Called with [cleanup_temp] true,
    [generate_subtitles] leaves no temporary audio file on any exit path;
    and whatever the flag, the only files it removes are its two
    temporaries, so the subtitle document and the video at other output
    paths are never deleted by it. *)
Theorem cleanup_guarantee (env : Env) (video_path : str)
    (output_video_path output_srt_path : option str) (s : state) :
  fs (snd (generate_subtitles env video_path output_video_path output_srt_path true s))
    !! temp_audio_path = None
  /\ forall cleanup_temp, exists evs,
       trace (snd (generate_subtitles env video_path output_video_path output_srt_path
                     cleanup_temp s)) = trace s ++ evs
       /\ Forall removes_only_temp evs.
Proof.
  split.
  - unfold generate_subtitles. apply Steps.cleanup_removes_audio.
  - intros cleanup_temp.
    destruct (RunFacts.generate_trace env video_path output_video_path output_srt_path
                cleanup_temp s) as (evs & E & H).
    exists evs. split; [done|].
    destruct H as [H|(doc & pre & post & -> & Hpre & Hpost)].
    + eapply Forall_impl; [exact H|]. intros [| | | |[]]; cbn; tauto.
    + apply Forall_app. split.
      * eapply Forall_impl; [exact Hpre|]. intros [| | | |[]]; cbn; tauto.
      * constructor; [done|].
        eapply Forall_impl; [exact Hpost|]. intros [| | | |[]]; cbn; tauto.
Qed.

(** C6 as stated fails when the caller turns the clean-up off: the run
    succeeds and the temporary audio file is still there. *)
Lemma audio_kept_without_cleanup :
  let run := generate_subtitles studio "video.mp4" None None false empty_state in
  is_ok (fst run) = true
  /\ fs (snd run) !! temp_audio_path = Some ("RIFF" : str).
Proof. vm_compute. done. Qed.


Module BurnFacts.
Import Trace Run RunFacts Steps.

Lemma bind_continues {A B} P (m : M A) (k : A -> M B) s :
  (forall a, emits P (k a)) -> extends P (snd (m s)) (snd (bind m k s)).
Proof.
  intros Hk. unfold bind. destruct (m s) as [[a|e] s1]; cbn [snd].
  - apply Hk.
  - apply extends_refl.
Qed.

Lemma try_except_continues {A} P (body : M A) handler s :
  (forall e h, handler e = Some h -> emits P h) ->
  extends P (snd (body s)) (snd (try_except body handler s)).
Proof.
  intros Hh. unfold try_except. destruct (body s) as [[a|e] s1]; cbn [snd].
  - apply extends_refl.
  - destruct (handler e) as [h|] eqn:E; [|apply extends_refl].
    specialize (Hh e h E s1). by destruct (h s1) as [[a|e2] s2].
Qed.

Lemma try_finally_continues {A} P (body : M A) cleanup s :
  emits P cleanup -> extends P (snd (body s)) (snd (try_finally body cleanup s)).
Proof.
  intros Hc. unfold try_finally. destruct (body s) as [r s1]. cbn [snd].
  specialize (Hc s1). by destruct (cleanup s1) as [[?|e2] s2].
Qed.

Lemma external_rw_trace {A} c (f : nat -> FS -> result A * FS) s :
  trace (snd (external_rw c f s)) = trace s ++ [EvCall c (fs s)].
Proof.
  unfold external_rw, bind, get_fs, log, tick, put_fs, lift. cbn.
  by destruct (f (clock s) (fs s)) as [[] ?].
Qed.

Lemma moviepy_any env video srt out :
  emits any_event (add_subtitles_to_video_moviepy env video srt out).
Proof. eapply emits_weaken; [|apply emits_moviepy]. done. Qed.

(** The primary path starts the tool before anything else. *)
Lemma with_srt_starts_ffmpeg env video srt out s :
  exists rest,
    trace (snd (add_subtitles_to_video_with_srt env video srt out None s))
    = trace s ++ EvPrint "Adding subtitles to video using FFmpeg..."
        :: EvCall (CallSubprocessRun (ffmpeg_cmd video srt out default_style_str)) (fs s)
        :: rest.
Proof.
  unfold add_subtitles_to_video_with_srt.
  unfold bind at 1. cbn [print log].
  unfold bind at 1. cbn [style_str lift].
  set (s1 := State _ _ _).
  match goal with |- context [try_except ?b ?h s1] => set (body := b); set (handler := h) end.
  assert (H1 : extends any_event (snd (body s1)) (snd (try_except body handler s1))).
  { apply try_except_continues. intros e h E. unfold handler in E.
    destruct (exn_cls e); try discriminate E; injection E as <-.
    - apply emits_bind; [by apply emits_log|]. intros _. apply moviepy_any.
    - footprint. }
  assert (H2 : exists rest, trace (snd (body s1))
                 = trace s1 ++ EvCall (CallSubprocessRun
                                         (ffmpeg_cmd video srt out default_style_str)) (fs s1)
                     :: rest).
  { unfold body, run_checked.
    match goal with |- context [bind (bind ?m ?k1) ?k2 s1] =>
      pose proof (bind_continues any_event (bind m k1) k2 s1) as Hb2;
      pose proof (bind_continues any_event m k1 s1) as Hb1;
      pose proof (external_rw_trace (CallSubprocessRun (ffmpeg_cmd video srt out default_style_str))
                    (fun n => subprocess_run env n (ffmpeg_cmd video srt out default_style_str)) s1) as Ht
    end.
    destruct Hb1 as (r1 & E1 & _).
    { intros p. destruct (_ =? _); [apply emits_ret|apply emits_raise]. }
    destruct Hb2 as (r2 & E2 & _).
    { intros _. footprint. }
    exists (r1 ++ r2). rewrite E2, E1, Ht. by rewrite <- !app_assoc. }
  destruct H1 as (r1 & E1 & _). destruct H2 as (r2 & E2).
  exists (r2 ++ r1). rewrite E1, E2. unfold s1. cbn [trace fs].
  by rewrite <- !app_assoc.
Qed.

Lemma with_srt_outcome env video srt out s : primary_outcome env video srt out s.
Proof.
  unfold primary_outcome. cbv zeta. unfold add_subtitles_to_video_with_srt.
  rewrite bind_unfold, print_run. cbn [style_str]. rewrite bind_unfold. cbn [lift].
  unfold try_except, run_checked.
  rewrite !bind_unfold, external_rw_run. cbn [fs clock trace].
  destruct (subprocess_run env (clock s) _ (fs s)) as [[p|e] files]; cbn [fst snd].
  - destruct (returncode p =? 0); cbn [ret raise exn_cls].
    + by rewrite bind_unfold, print_run.
    + rewrite bind_unfold, print_run. cbn [raise chain fst]. eauto.
  - destruct e as [cls msg ctx].
    destruct cls; cbn [exn_cls]; try reflexivity.
    + rewrite bind_unfold, print_run. cbn [fs clock trace].
      rewrite <- !app_assoc. cbn [app].
      by destruct (add_subtitles_to_video_moviepy env video srt out _) as [[]].
    + rewrite bind_unfold, print_run. cbn [raise chain fst]. eauto.
Qed.

Lemma remove_temp_srt_ok s : exists s', remove_temp_srt s = (Ok tt, s').
Proof.
  unfold remove_temp_srt. unfold bind at 1. rewrite path_exists_run.
  destruct (fs s !! temp_srt_path) as [c|] eqn:E.
  - rewrite bool_decide_eq_true_2 by eauto. rewrite (remove_run _ _ c E). eauto.
  - rewrite bool_decide_eq_false_2 by (by intros [? ?]). cbn [ret]. eauto.
Qed.

Lemma finally_remove_result {A} (body : M A) s :
  fst (try_finally body remove_temp_srt s) = fst (body s).
Proof.
  unfold try_finally. destruct (body s) as [r s1].
  destruct (remove_temp_srt_ok s1) as [s2 ->]. done.
Qed.

Lemma chain_msg e2 e : exn_msg (chain e2 e) = exn_msg e2 /\ exn_cls (chain e2 e) = exn_cls e2.
Proof. by destruct e2 as [c m [ctx|]]. Qed.

End BurnFacts.

(** C3, as the code has it.  [add_subtitles_to_video] writes the temporary
    subtitle file and, when that succeeds, starts with the primary path: the
    first call it makes is the ffmpeg run, and the primary path fails when
    the tool exits with another status than 0 or when it is missing and the
    fallback run in its place fails.  A successful primary path is the
    result.  When the primary path raises [e1], the message of [e1] is
    printed and the fallback runs; a successful fallback is the result, and
    a fallback that raises [e2] makes the whole operation fail with [e2]
    itself, class and message, to which [e1] is only linked as context. *)
Theorem burn_contract (env : Env) (video_path : str) (segs : list segment)
    (output_path : str) (s : state) :
  let run := add_subtitles_to_video env video_path segs output_path s in
  let written := create_srt_file segs temp_srt_path s in
  match fst written with
  | Raise e => fst run = Raise e
  | Ok _ =>
    let primary :=
      add_subtitles_to_video_with_srt env video_path temp_srt_path output_path None
        (snd written) in
    (exists rest,
       trace (snd run)
       = trace (snd written)
         ++ EvPrint "Adding subtitles to video using FFmpeg..."
            :: EvCall (CallSubprocessRun
                         (ffmpeg_cmd video_path temp_srt_path output_path default_style_str))
                 (fs (snd written))
            :: rest)
    /\ primary_outcome env video_path temp_srt_path output_path (snd written)
    /\ match fst primary with
       | Ok p => fst run = Ok p
       | Raise e1 =>
         let announced :=
           snd (bind (print ("FFmpeg method failed: " ++ exn_msg e1))
                  (fun _ => print "Falling back to MoviePy method...") (snd primary)) in
         let fallback :=
           add_subtitles_to_video_moviepy env video_path temp_srt_path output_path
             announced in
         match fst fallback with
         | Ok p => fst run = Ok p
         | Raise e2 =>
           fst run = Raise (chain e2 e1)
           /\ exn_msg (chain e2 e1) = exn_msg e2
           /\ exn_cls (chain e2 e1) = exn_cls e2
         end
       end
  end.
Proof.
  cbv zeta. unfold add_subtitles_to_video.
  fold Trace.remove_temp_srt.
  rewrite (Steps.bind_unfold (create_srt_file segs temp_srt_path)).
  destruct (create_srt_file segs temp_srt_path s) as [[p0|e0] s1]; cbn [fst snd]; [|done].
  split.
  - match goal with |- context [try_finally ?b _ s1] => set (body := b) end.
    destruct (BurnFacts.try_finally_continues Trace.any_event body
                Trace.remove_temp_srt s1) as (r1 & E1 & _).
    { unfold Trace.remove_temp_srt. Run.footprint. }
    unfold body in *.
    match goal with
    | |- context [try_except ?b ?h] => set (prim := b) in *; set (handler := h) in *
    end.
    destruct (BurnFacts.try_except_continues Trace.any_event prim handler s1)
      as (r2 & E2 & _).
    { intros e h [= <-]. Run.footprint. apply BurnFacts.moviepy_any. }
    destruct (BurnFacts.with_srt_starts_ffmpeg env video_path temp_srt_path output_path s1)
      as (r3 & E3).
    fold prim in E3. exists (r3 ++ r2 ++ r1).
    rewrite E1, E2, E3. rewrite <- !app_assoc. done.
  - split; [apply BurnFacts.with_srt_outcome|].
    rewrite BurnFacts.finally_remove_result. unfold try_except.
    destruct (add_subtitles_to_video_with_srt env video_path temp_srt_path output_path None s1)
      as [[p|e1] s2]; cbn [fst snd]; [reflexivity|].
    repeat (rewrite Steps.bind_unfold; cbn [print log snd]).
    match goal with |- context [add_subtitles_to_video_moviepy _ _ _ _ ?st] =>
      destruct (add_subtitles_to_video_moviepy env video_path temp_srt_path output_path st)
        as [[p|e2] s3] end; cbn [fst]; [reflexivity|].
    split; [reflexivity|]. apply BurnFacts.chain_msg.
Qed.

(** C3 as stated fails where both paths fail: the error that reaches the
    caller has the fallback's message and nothing of the primary tool's
    diagnostic. *)
Lemma burn_error_is_fallback_error :
  exists e,
    fst (add_subtitles_to_video both_fail "video.mp4" [] "out.mp4" empty_state) = Raise e
    /\ exn_msg e = ("MoviePy error: cannot open video" : str)
    /\ Str.contains "Invalid data found" (exn_msg e) = false.
Proof. eexists. vm_compute. done. Qed.

Module FallbackFacts.
Import Trace Run RunFacts Steps BurnFacts.

Lemma emits_clip env text start end_ size :
  emits fp_clips (create_subtitle_clip env text start end_ size).
Proof. unfold create_subtitle_clip, new_text_clip. footprint. Qed.

(** With no text rendering, [create_subtitle_clip] returns [None]. *)
Lemma create_subtitle_clip_none env text start end_ size s :
  (forall n fontsize method, is_ok (TextClip env n text fontsize method) = false) ->
  fst (create_subtitle_clip env text start end_ size s) = Ok None.
Proof.
  intros Hfail. unfold create_subtitle_clip, new_text_clip, try_except.
  rewrite !bind_unfold, external_run.
  pose proof (Hfail (clock s) (Z.min (snd size / 20) 48) (Some ("label" : str))) as H1.
  destruct (TextClip env (clock s) text _ _) as [[]|e1]; [done|]. clear H1.
  rewrite bind_unfold, print_run, !bind_unfold, external_run. cbn [clock].
  pose proof (Hfail (S (clock s)) 24 None) as H2.
  destruct (TextClip env (S (clock s)) text 24 None) as [[]|e2]; [done|].
  by rewrite bind_unfold, print_run.
Qed.

Lemma clips_loop_none env size subs : Forall (no_overlay env) subs ->
  forall clips s,
    fst (subtitle_clips_loop env subs size clips s) = Ok clips
    /\ extends fp_clips s (snd (subtitle_clips_loop env subs size clips s)).
Proof.
  induction 1 as [|sub subs Hsub _ IH]; intros clips s; cbn [subtitle_clips_loop].
  - split; [done|apply extends_refl].
  - destruct Hsub as [Hempty|Hfail].
    + rewrite Hempty. rewrite bool_decide_eq_true_2 by done. apply IH.
    + destruct (bool_decide (seg_text sub = [])); cbn [negb]; [apply IH|].
      rewrite bind_unfold.
      pose proof (create_subtitle_clip_none env (seg_text sub) (seg_start sub)
                    (seg_end sub) size s Hfail) as Hnone.
      pose proof (emits_clip env (seg_text sub) (seg_start sub) (seg_end sub) size s)
        as Hext.
      destruct (create_subtitle_clip env (seg_text sub) (seg_start sub) (seg_end sub) size s)
        as [r s1]. cbn [fst snd] in *. subst r.
      destruct (IH clips s1) as [E H]. split; [done|]. by eapply extends_trans.
Qed.

End FallbackFacts.



Module StyleFacts.
Import Str StrFacts Trace Run.

Lemma emits_bind_lift {A B} P (r : result A) (k : A -> M B) :
  (forall a, r = Ok a -> emits P (k a)) -> emits P (bind (lift r) k).
Proof.
  intros Hk s. unfold bind, lift. destruct r as [a|e]; [by apply Hk|].
  apply extends_refl.
Qed.

Lemma emits_with_srt env video srt out sc :
  emits (fp_with_srt video srt out sc)
    (add_subtitles_to_video_with_srt env video srt out sc).
Proof.
  unfold add_subtitles_to_video_with_srt.
  apply emits_bind; [by apply emits_log|]. intros _.
  apply emits_bind_lift. intros style Hstyle.
  apply emits_try_except.
  - unfold run_checked. footprint. by exists style.
  - intros e h E. destruct (exn_cls e); try discriminate E; injection E as <-.
    + apply emits_bind; [by apply emits_log|]. intros _.
      eapply emits_weaken; [|apply emits_moviepy].
      intros [| | | |[]]; cbn; tauto.
    + footprint.
Qed.

Lemma white_of_malformed c : c = [] \/ startswith "#" c = false ->
  hex_to_ffmpeg (PStr c) = Ok ("&Hffffff&" : str).
Proof.
  intros [->|H]; [reflexivity|]. unfold hex_to_ffmpeg. cbn [truthy].
  case_bool_decide; cbn [negb]; [reflexivity|]. by rewrite H.
Qed.

Lemma hex_to_ffmpeg_str_ok c : is_ok (hex_to_ffmpeg (PStr c)) = true.
Proof.
  unfold hex_to_ffmpeg. cbn [truthy].
  case_bool_decide; cbn [negb]; [reflexivity|].
  by destruct (startswith "#" c).
Qed.

Lemma lstrip_hash c rest : c <> "#"%char ->
  lstrip "#" ("#"%char :: c :: rest) = c :: rest.
Proof.
  intros H. unfold lstrip. cbn [lstrip_by].
  assert (E1 : existsb (eqb "#"%char) ("#" : str) = true) by reflexivity.
  assert (E2 : existsb (eqb c) ("#" : str) = false).
  { cbn. by rewrite (proj2 (eqb_false _ _) H). }
  by rewrite E1, E2.
Qed.

Lemma hex_reversed r1 r2 g1 g2 b1 b2 : r1 <> "#"%char ->
  hex_to_ffmpeg (PStr ["#"%char; r1; r2; g1; g2; b1; b2])
  = Ok ("&H" ++ [b1; b2] ++ [g1; g2] ++ [r1; r2] ++ "&").
Proof.
  intros H. unfold hex_to_ffmpeg. cbn [truthy]. rewrite bool_decide_eq_false_2 by done.
  cbn [negb]. change (startswith "#" ["#"%char; r1; r2; g1; g2; b1; b2]) with true.
  cbn [negb]. by rewrite lstrip_hash.
Qed.

Lemma style_str_some (d : StyleConfig) primary outline :
  d <> ∅ ->
  hex_to_ffmpeg (dict_get d "fontColor" (PStr "#ffffff")) = Ok primary ->
  hex_to_ffmpeg (dict_get d "outlineColor" (PStr "#000000")) = Ok outline ->
  style_str (Some d)
  = Ok (("FontSize=" ++ py_str (dict_get d "fontSize" (PInt 24)) ++ ",")
        ++ ("PrimaryColour=" ++ primary)
        ++ (",OutlineColour=" ++ outline
            ++ ",Outline=" ++ py_str (dict_get d "outlineWidth" (PInt 2))
            ++ ",MarginV=" ++ py_str (dict_get d "marginV" (PInt 10)))).
Proof.
  intros Hne H1 H2. unfold style_str. rewrite bool_decide_eq_false_2 by done.
  rewrite H1, H2. cbn [rbind]. f_equal. by rewrite <- !app_assoc.
Qed.

(** The primary colour, and every part of it, occurs in the style
    string. *)
Lemma style_str_contains (d : StyleConfig) primary outline style pre mid post :
  d <> ∅ ->
  hex_to_ffmpeg (dict_get d "fontColor" (PStr "#ffffff")) = Ok primary ->
  hex_to_ffmpeg (dict_get d "outlineColor" (PStr "#000000")) = Ok outline ->
  style_str (Some d) = Ok style ->
  primary = pre ++ mid ++ post ->
  contains ("PrimaryColour=" ++ primary) style = true /\ contains mid style = true.
Proof.
  intros Hne H1 H2 Hstyle Hmid.
  rewrite (style_str_some d _ _ Hne H1 H2) in Hstyle.
  match type of Hstyle with Ok ?x = Ok _ => assert (E : style = x) by congruence end.
  rewrite E. split; [apply contains_app|].
  rewrite Hmid.
  match goal with |- contains _ (?a ++ (?b ++ _) ++ ?c) = true =>
    replace (a ++ (b ++ pre ++ mid ++ post) ++ c)
      with ((a ++ b ++ pre) ++ mid ++ (post ++ c))
      by (by rewrite <- !app_assoc)
  end.
  apply contains_app.
Qed.

Lemma style_str_contains_outline (d : StyleConfig) primary outline style :
  d <> ∅ ->
  hex_to_ffmpeg (dict_get d "fontColor" (PStr "#ffffff")) = Ok primary ->
  hex_to_ffmpeg (dict_get d "outlineColor" (PStr "#000000")) = Ok outline ->
  style_str (Some d) = Ok style ->
  contains ("OutlineColour=" ++ outline) style = true.
Proof.
  intros Hne H1 H2 Hstyle.
  rewrite (style_str_some d _ _ Hne H1 H2) in Hstyle.
  match type of Hstyle with Ok ?x = Ok _ => assert (E : style = x) by congruence end.
  rewrite E.
  match goal with |- contains _ (?a ++ ?b ++ (_ ++ outline ++ ?c)) = true =>
    replace (a ++ b ++ (",OutlineColour=" ++ outline ++ c))
      with ((a ++ b ++ ",") ++ ("OutlineColour=" ++ outline) ++ c)
      by (rewrite <- !app_assoc; reflexivity)
  end.
  apply contains_app.
Qed.

Lemma nonempty_of_lookup (d : gmap str pyval) k v : d !! k = Some v -> d <> ∅.
Proof. intros H ->. by rewrite lookup_empty in H. Qed.

End StyleFacts.



(** C9.  A colour string that is empty or does not start with ['#'] is
    translated to white [&Hffffff&]; the translation raises for no string at
    all, so a style whose two colours are strings always yields a style
    string, with white where the font colour or the outline colour is
    malformed. *)
Theorem malformed_color_is_white (c : str) :
  c = [] \/ Str.startswith "#" c = false ->
  hex_to_ffmpeg (PStr c) = Ok ("&Hffffff&" : str)
  /\ (forall any : str, is_ok (hex_to_ffmpeg (PStr any)) = true)
  /\ (forall (d : StyleConfig) (outline : str),
        d !! ("fontColor" : str) = Some (PStr c) ->
        dict_get d "outlineColor" (PStr "#000000") = PStr outline ->
        exists style, style_str (Some d) = Ok style
                      /\ Str.contains "PrimaryColour=&Hffffff&" style = true)
  /\ (forall (d : StyleConfig) (font : str),
        d !! ("outlineColor" : str) = Some (PStr c) ->
        dict_get d "fontColor" (PStr "#ffffff") = PStr font ->
        exists style, style_str (Some d) = Ok style
                      /\ Str.contains "OutlineColour=&Hffffff&" style = true).
Proof.
  intros Hc. split; [by apply StyleFacts.white_of_malformed|].
  split; [apply StyleFacts.hex_to_ffmpeg_str_ok|]. split.
  - intros d outline Hfont Hout.
    assert (Hne : d <> ∅) by by eapply StyleFacts.nonempty_of_lookup.
    assert (Hprimary : hex_to_ffmpeg (dict_get d "fontColor" (PStr "#ffffff"))
                       = Ok ("&Hffffff&" : str)).
    { unfold dict_get. rewrite Hfont. by apply StyleFacts.white_of_malformed. }
    pose proof (StyleFacts.hex_to_ffmpeg_str_ok outline) as Hok.
    destruct (hex_to_ffmpeg (PStr outline)) as [o|] eqn:Ho; [|done].
    rewrite <- Hout in Ho.
    destruct (style_str (Some d)) as [style|e] eqn:Hstyle.
    + exists style. split; [done|].
      by apply (StyleFacts.style_str_contains d "&Hffffff&" o style [] "&Hffffff&" []).
    + by rewrite (StyleFacts.style_str_some d _ _ Hne Hprimary Ho) in Hstyle.
  - intros d font Hout Hfont.
    assert (Hne : d <> ∅) by by eapply StyleFacts.nonempty_of_lookup.
    assert (Houtline : hex_to_ffmpeg (dict_get d "outlineColor" (PStr "#000000"))
                       = Ok ("&Hffffff&" : str)).
    { unfold dict_get. rewrite Hout. by apply StyleFacts.white_of_malformed. }
    pose proof (StyleFacts.hex_to_ffmpeg_str_ok font) as Hok.
    destruct (hex_to_ffmpeg (PStr font)) as [p|] eqn:Hp; [|done].
    rewrite <- Hfont in Hp.
    destruct (style_str (Some d)) as [style|e] eqn:Hstyle.
    + exists style. split; [done|].
      by apply (StyleFacts.style_str_contains_outline d p "&Hffffff&" style).
    + by rewrite (StyleFacts.style_str_some d _ _ Hne Hp Houtline) in Hstyle.
Qed.

Lemma malformed_color_is_white_witness :
  hex_to_ffmpeg (PStr "red") = Ok ("&Hffffff&" : str).
Proof.
  refine (proj1 (malformed_color_is_white "red" _)). right. reflexivity.
Defined.

Module ReadFacts.
Import Str StrFacts Shape.

Lemma parse_blocks_app before rest : forall acc,
  parse_blocks (before ++ rest) acc
  = match parse_blocks before acc with
    | Ok acc' => parse_blocks rest acc'
    | Raise e => Raise e
    end.
Proof.
  induction before as [|b before IH]; intros acc; [done|].
  cbn [app parse_blocks].
  destruct (3 <=? length (split [NL] (strip b)))%nat; [|apply IH].
  destruct (getitem (split [NL] (strip b)) 1) as [time_line|e]; cbn [rbind]; [|done].
  destruct (contains " --> " time_line); [|apply IH].
  destruct (split " --> " time_line) as [|a [|c [|? ?]]]; try done.
  destruct (parse_time_string a) as [start|e]; cbn [rbind]; [|done].
  destruct (parse_time_string c) as [end_|e]; cbn [rbind]; [|done].
  apply IH.
Qed.

Lemma contains_of_split sep s a b : split sep s = [a; b] -> contains sep s = true.
Proof.
  intros H. unfold contains. destruct (partition sep s) as [[]|] eqn:E; [done|].
  by rewrite (split_none _ _ E) in H.
Qed.

End ReadFacts.




(** * The claims about the codecs *)

Module RoundtripFacts.
Import Str StrFacts Shape SrtFacts DocFacts.

Lemma blocks_from_imap segs : forall i,
  blocks_from i segs = imap (fun k seg => block (i + Z.of_nat k) seg) segs.
Proof.
  induction segs as [|seg segs IH]; intros i; [done|].
  cbn [blocks_from]. rewrite imap_cons, IH. f_equal; [f_equal; lia|].
  apply imap_ext. intros k x _. cbn. f_equal. lia.
Qed.

Lemma reread_close seg : srt_ready seg ->
  seg_text (reread seg) = strip (seg_text seg)
  /\ within_ms (seg_start seg) (seg_start (reread seg))
  /\ within_ms (seg_end seg) (seg_end (reread seg)).
Proof.
  intros (Hs & He & _). split; [done|].
  split; [by apply decoded_spec|by apply decoded_spec].
Qed.

End RoundtripFacts.









